(** * MyPropMate: the payment reconciliation engine

    A shallow embedding of the rent-payment pipeline of the backend
    ([app/services/gmail_watcher.py], [app/services/payment_processor.py],
    [app/db/supabase.py], [app/models/schemas.py]) and the properties of it
    that the specification states.

    Conventions of the model.
    - Text is [string], read as ASCII text: blanks, digits, letters and
      the two letter cases are those of Python and of PostgreSQL on the
      characters below 128.  A character above 127 is kept as it is and
      taken for neither a blank, a digit nor a letter, which is not what
      Python does for every one of them (U+00A0 is a blank to [split], a
      letter with an accent has another case, [int] reads the digits of
      other scripts); a statement whose truth depends on this assumes
      ASCII text, [Text.is_ascii].
    - A Python [float] is an IEEE binary64 number, [spec_float] with
      precision 53 and maximal exponent 1024.
    - The external services (mailbox, database, invoicing) are state
      components of [World] together with an environment [Env] that says
      which calls raise. *)

From Stdlib Require Import ZArith List Bool Ascii String Lia.
From Stdlib Require Import Floats.SpecFloat.
Import ListNotations.

Local Open Scope string_scope.
Local Open Scope Z_scope.

(** ** Characters and strings, as Python's [str] methods see them *)

Module Text.

Definition code (c : ascii) : Z := Z.of_N (N_of_ascii c).

Definition between (lo hi : Z) (c : ascii) : bool :=
  (lo <=? code c) && (code c <=? hi).

(** A character of ASCII. *)
Definition is_ascii (c : ascii) : bool := code c <? 128.

Definition is_digit : ascii -> bool := between 48 57.
Definition is_upper : ascii -> bool := between 65 90.
Definition is_lower : ascii -> bool := between 97 122.
Definition is_alpha (c : ascii) : bool := is_upper c || is_lower c.

(** [str.isspace] on the ASCII range: TAB, LF, VT, FF, CR, the four
    separators FS, GS, RS, US, and the blank.  Of the characters above
    127, Python takes some for blanks too, U+0085 and U+00A0 among them;
    here none is (see the conventions). *)
Definition is_space (c : ascii) : bool :=
  between 9 13 c || between 28 32 c.

(** [c.lower()] and [c.upper()] on the ASCII range. *)
Definition lower (c : ascii) : ascii :=
  if is_upper c then ascii_of_N (N_of_ascii c + 32) else c.

Definition upper (c : ascii) : ascii :=
  if is_lower c then ascii_of_N (N_of_ascii c - 32) else c.

(** Equality of characters up to letter case. *)
Definition eq_ci (a b : ascii) : bool := Ascii.eqb (lower a) (lower b).

Fixpoint map_str (f : ascii -> ascii) (s : string) : string :=
  match s with
  | EmptyString => EmptyString
  | String c s' => String (f c) (map_str f s')
  end.

Fixpoint filter_str (p : ascii -> bool) (s : string) : string :=
  match s with
  | EmptyString => EmptyString
  | String c s' => if p c then String c (filter_str p s') else filter_str p s'
  end.

Fixpoint rev_onto (s acc : string) : string :=
  match s with
  | EmptyString => acc
  | String c s' => rev_onto s' (String c acc)
  end.

Definition rev_str (s : string) : string := rev_onto s EmptyString.

Fixpoint lstrip (s : string) : string :=
  match s with
  | String c s' => if is_space c then lstrip s' else s
  | EmptyString => EmptyString
  end.

Definition rstrip (s : string) : string := rev_str (lstrip (rev_str s)).

(** [s.strip()] *)
Definition strip (s : string) : string := rstrip (lstrip s).

(** [s.split()]: the maximal runs of non-space characters. *)
Fixpoint split_ws_go (s cur : string) : list string :=
  match s with
  | EmptyString =>
      match cur with EmptyString => [] | _ => [rev_str cur] end
  | String c s' =>
      if is_space c
      then match cur with
           | EmptyString => split_ws_go s' EmptyString
           | _ => rev_str cur :: split_ws_go s' EmptyString
           end
      else split_ws_go s' (String c cur)
  end.

Definition split_ws (s : string) : list string := split_ws_go s EmptyString.

(** [s.split(sep)] for a one-character separator: every separator cuts,
    so the result has one more field than there are separators. *)
Fixpoint split_on_go (sep : ascii) (s cur : string) : list string :=
  match s with
  | EmptyString => [rev_str cur]
  | String c s' =>
      if Ascii.eqb c sep
      then rev_str cur :: split_on_go sep s' EmptyString
      else split_on_go sep s' (String c cur)
  end.

Definition split_on (sep : ascii) (s : string) : list string :=
  split_on_go sep s EmptyString.

(** [sep.join(parts)] *)
Fixpoint join (sep : string) (parts : list string) : string :=
  match parts with
  | [] => EmptyString
  | [p] => p
  | p :: rest => p ++ sep ++ join sep rest
  end.

(** [w.capitalize()] for a word of ASCII: first character upper case, the
    others lower case.  Python changes the case of letters above 127 too,
    and for some of them gives more than one character. *)
Definition capitalize (w : string) : string :=
  match w with
  | EmptyString => EmptyString
  | String c w' => String (upper c) (map_str lower w')
  end.

Fixpoint starts_with (pre s : string) : bool :=
  match pre, s with
  | EmptyString, _ => true
  | String a pre', String b s' => Ascii.eqb a b && starts_with pre' s'
  | String _ _, EmptyString => false
  end.

(** [s.replace(old, "")] for a non-empty [old]: the occurrences are found
    from the left and do not overlap; [skip] counts the characters of the
    occurrence under deletion that are still to be dropped. *)
Fixpoint remove_go (old : string) (skip : nat) (s : string) : string :=
  match s with
  | EmptyString => EmptyString
  | String c s' =>
      match skip with
      | S n => remove_go old n s'
      | O =>
          if starts_with old s
          then remove_go old (Nat.pred (String.length old)) s'
          else String c (remove_go old O s')
      end
  end.

Definition remove_all (old s : string) : string := remove_go old O s.

(** The first [String.length s - String.length rest] characters of [s]:
    what a matcher consumed when it went from [s] to its suffix [rest]. *)
Definition consumed (s rest : string) : string :=
  substring 0 (String.length s - String.length rest) s.

(** Truthiness of a Python string. *)
Definition nonempty (s : string) : bool :=
  match s with EmptyString => false | _ => true end.

(** Decimal digits of a non-negative number, most significant first. *)
Definition digit_char (d : Z) : ascii := ascii_of_N (Z.to_N (48 + d)).

Fixpoint digits_go (fuel : nat) (n : Z) (acc : string) : string :=
  match fuel with
  | O => acc
  | S fuel' =>
      let acc' := String (digit_char (n mod 10)) acc in
      if n / 10 =? 0 then acc' else digits_go fuel' (n / 10) acc'
  end.

Definition show_nat_Z (n : Z) : string :=
  digits_go (S (Z.to_nat (Z.log2 n))) n EmptyString.

(** [str(n)] for an integer. *)
Definition show_Z (n : Z) : string :=
  if n <? 0 then String "-" (show_nat_Z (- n)) else show_nat_Z n.

(** Value of a run of decimal digits. *)
Fixpoint digits_value (s : string) (acc : Z) : Z :=
  match s with
  | EmptyString => acc
  | String c s' => digits_value s' (10 * acc + (code c - 48))
  end.

End Text.

(** ** Regular expressions with Python's backtracking order

    The patterns of the source only repeat single-character classes, so
    the syntax has repetition of a class only and matching is structural.
    A match is found the way [re] finds it: alternatives left to right, a
    greedy repetition longest first, a lazy one shortest first, and the
    first complete match wins.  Groups are numbered in the order in which
    they close, which for the patterns below is their textual order. *)

Module Regex.

Import Text.

Inductive re : Type :=
| Eps                                   (* the empty pattern *)
| Cls (p : ascii -> bool)               (* one character of a class *)
| Cat (r1 r2 : re)                      (* r1 r2 *)
| Alt (r1 r2 : re)                      (* r1|r2 *)
| Rep (lazy : bool) (lo : nat) (hi : option nat) (p : ascii -> bool)
                                        (* p{lo,hi}, p{lo,hi}? *)
| Grp (r : re)                          (* ( r ) *)
| Dollar.                               (* $ *)

(** The outcome of a match: the groups and the unread rest of the text. *)
Definition hit : Type := (list string * string)%type.

Definition may_repeat (hi : option nat) : bool :=
  match hi with Some O => false | _ => true end.

Definition one_less (hi : option nat) : option nat :=
  match hi with Some n => Some (Nat.pred n) | None => None end.

(** [p{lo,hi}] followed by the continuation [k]. *)
Fixpoint rep (lazy : bool) (lo : nat) (hi : option nat) (p : ascii -> bool)
    (s : string) (k : string -> option hit) {struct s} : option hit :=
  let stop (_ : unit) := match lo with O => k s | S _ => None end in
  let more (_ : unit) :=
    match s with
    | String c s' =>
        if p c && may_repeat hi
        then rep lazy (Nat.pred lo) (one_less hi) p s' k
        else None
    | EmptyString => None
    end in
  if lazy
  then match stop tt with Some h => Some h | None => more tt end
  else match more tt with Some h => Some h | None => stop tt end.

(** [$] without MULTILINE: the end of the text, or just before a final
    line feed. *)
Definition at_dollar (s : string) : bool :=
  match s with
  | EmptyString => true
  | String c EmptyString => Ascii.eqb c "010"
  | _ => false
  end.

Fixpoint run (r : re) (s : string) (caps : list string)
    (k : string -> list string -> option hit) {struct r} : option hit :=
  match r with
  | Eps => k s caps
  | Cls p =>
      match s with
      | String c s' => if p c then k s' caps else None
      | EmptyString => None
      end
  | Cat r1 r2 => run r1 s caps (fun s' caps' => run r2 s' caps' k)
  | Alt r1 r2 =>
      match run r1 s caps k with
      | Some h => Some h
      | None => run r2 s caps k
      end
  | Rep lazy lo hi p => rep lazy lo hi p s (fun s' => k s' caps)
  | Grp r1 =>
      run r1 s caps (fun s' caps' => k s' (caps' ++ [consumed s s'])%list)
  | Dollar => if at_dollar s then k s caps else None
  end.

(** [re.match]: a match that starts at the head of [s]. *)
Definition match_here (r : re) (s : string) : option hit :=
  run r s [] (fun s' caps => Some (caps, s')).

(** [re.search]: the match at the leftmost position that has one. *)
Fixpoint search (r : re) (s : string) : option hit :=
  match match_here r s with
  | Some h => Some h
  | None =>
      match s with
      | EmptyString => None
      | String _ s' => search r s'
      end
  end.

(** [m.group(1)] *)
Definition group1 (h : hit) : string := nth 0 (fst h) EmptyString.

(** [re.sub(r, repl, s)] for a pattern that matches no empty text: every
    match, found from the left, is replaced.  The fuel bounds the number
    of characters still to read. *)
Fixpoint sub_go (fuel : nat) (r : re) (repl s : string) : string :=
  match fuel with
  | O => s
  | S fuel' =>
      match s with
      | EmptyString => EmptyString
      | String c s' =>
          match match_here r s with
          | Some (_, rest) => repl ++ sub_go fuel' r repl rest
          | None => String c (sub_go fuel' r repl s')
          end
      end
  end.

Definition sub (r : re) (repl s : string) : string :=
  sub_go (String.length s) r repl s.

(** *** What a pattern can read and capture *)

(** No group in the pattern. *)
Fixpoint group_free (r : re) : bool :=
  match r with
  | Grp _ => false
  | Cat r1 r2 | Alt r1 r2 => group_free r1 && group_free r2
  | _ => true
  end.

(** Every character that the pattern reads is one of [P]. *)
Fixpoint reads_only (P : ascii -> bool) (r : re) : Prop :=
  match r with
  | Eps | Dollar => True
  | Cls p | Rep _ _ _ p => forall c, p c = true -> P c = true
  | Cat r1 r2 | Alt r1 r2 => reads_only P r1 /\ reads_only P r2
  | Grp r1 => reads_only P r1
  end.

Fixpoint all_chars (P : ascii -> bool) (s : string) : bool :=
  match s with
  | EmptyString => true
  | String c s' => P c && all_chars P s'
  end.

(** *** Pattern builders *)

(** A literal character, under IGNORECASE. *)
Definition chr_i (c : ascii) : re := Cls (eq_ci c).

Definition chr (c : ascii) : re := Cls (Ascii.eqb c).

(** A literal text, under IGNORECASE. *)
Fixpoint lit_i (s : string) : re :=
  match s with
  | EmptyString => Eps
  | String c EmptyString => chr_i c
  | String c s' => Cat (chr_i c) (lit_i s')
  end.

Fixpoint cat (rs : list re) : re :=
  match rs with
  | [] => Eps
  | [r] => r
  | r :: rs' => Cat r (cat rs')
  end.

(** [a|b|...]; the empty alternation matches nothing. *)
Fixpoint alt (rs : list re) : re :=
  match rs with
  | [] => Cls (fun _ => false)
  | [r] => r
  | r :: rs' => Alt r (alt rs')
  end.

Definition star (p : ascii -> bool) : re := Rep false 0 None p.
Definition plus (p : ascii -> bool) : re := Rep false 1 None p.
Definition plus_lazy (p : ascii -> bool) : re := Rep true 1 None p.
Definition times (lo hi : nat) (p : ascii -> bool) : re :=
  Rep false lo (Some hi) p.
Definition at_least (lo : nat) (p : ascii -> bool) : re :=
  Rep false lo None p.

(** [.] without DOTALL *)
Definition dot (c : ascii) : bool := negb (Ascii.eqb c "010").

End Regex.

(** ** Python floats: IEEE binary64 *)

Module Float.

Import Text.

Definition float : Type := spec_float.

Definition prec : Z := 53.
Definition emax : Z := 1024.

Definition zero : float := S754_zero false.

Definition add : float -> float -> float := SFadd prec emax.
Definition sub : float -> float -> float := SFsub prec emax.
Definition abs : float -> float := SFabs.

(** [x > y], [x >= y]; both are false as soon as one side is NaN. *)
Definition gt (x y : float) : bool := SFltb y x.
Definition ge (x y : float) : bool := SFleb y x.
Definition le (x y : float) : bool := SFleb x y.

(** The double nearest to the fraction [n / d]: one correctly rounded
    division of the two integers. *)
Definition of_ratio (n : Z) (d : positive) : float :=
  match n with
  | Z0 => zero
  | Zpos p => SFdiv prec emax (S754_finite false p 0) (S754_finite false d 0)
  | Zneg p => SFdiv prec emax (S754_finite true p 0) (S754_finite false d 0)
  end.

(** [float(s)] for an unsigned decimal numeral [s] of the shape
    digits [.] digits, the only shape the amount pattern lets through:
    the double nearest to its value. *)
Definition of_decimal (s : string) : float :=
  match split_on "." s with
  | [ip] => of_ratio (digits_value ip 0) 1
  | ip :: fp :: _ =>
      of_ratio (digits_value (ip ++ fp) 0)
               (Z.to_pos (10 ^ Z.of_nat (String.length fp)))
  | [] => zero
  end.

(** Truthiness: a float is falsy exactly when it is a zero. *)
Definition truthy (x : float) : bool :=
  match x with S754_zero _ => false | _ => true end.

(** A number, as opposed to an infinity or NaN. *)
Definition is_finite (x : float) : bool :=
  match x with S754_zero _ | S754_finite _ _ _ => true | _ => false end.

(** The sign of a float that has one. *)
Definition has_sign (s : bool) (x : float) : Prop :=
  match x with
  | S754_zero s' | S754_infinity s' | S754_finite s' _ _ => s' = s
  | S754_nan => False
  end.

Definition not_nan (x : float) : Prop :=
  match x with S754_nan => False | _ => True end.

Definition two_digits (n : Z) : string :=
  String (digit_char (n / 10)) (String (digit_char (n mod 10)) EmptyString).

(** [m * 2^e * 100] rounded to the nearest integer, ties to even. *)
Definition round_cents (m : positive) (e : Z) : Z :=
  match e with
  | Zneg k =>
      let num := Zpos m * 100 in
      let den := 2 ^ Zpos k in
      let q := num / den in
      let r := num mod den in
      match 2 * r ?= den with
      | Lt => q
      | Gt => q + 1
      | Eq => if Z.even q then q else q + 1
      end
  | _ => Zpos m * 2 ^ e * 100
  end.

(** [f"{x:.2f}"] *)
Definition format_2f (x : float) : string :=
  let sign (s : bool) := if s then "-" else "" in
  match x with
  | S754_nan => "nan"
  | S754_infinity s => sign s ++ "inf"
  | S754_zero s => sign s ++ "0.00"
  | S754_finite s m e =>
      let c := round_cents m e in
      sign s ++ show_Z (c / 100) ++ "." ++ two_digits (c mod 100)
  end.

End Float.

(** ** Calendar dates, [datetime.date] *)

Module Dates.

Import Text Regex.

Record Date : Type := mkDate { year : Z; month : Z; day : Z }.

Definition is_leap (y : Z) : bool :=
  ((y mod 4 =? 0) && negb (y mod 100 =? 0)) || (y mod 400 =? 0).

Definition days_in_month (y m : Z) : Z :=
  if m =? 2 then (if is_leap y then 29 else 28)
  else if (m =? 4) || (m =? 6) || (m =? 9) || (m =? 11) then 30
  else 31.

(** [date(y, m, d)], which raises ValueError outside the calendar. *)
Definition make_date (y m d : Z) : option Date :=
  if (1 <=? y) && (y <=? 9999) && (1 <=? m) && (m <=? 12)
     && (1 <=? d) && (d <=? days_in_month y m)
  then Some (mkDate y m d)
  else None.

Definition month_names : list string :=
  ["January"; "February"; "March"; "April"; "May"; "June"; "July";
   "August"; "September"; "October"; "November"; "December"].

Definition month_abbrs : list string :=
  ["Jan"; "Feb"; "Mar"; "Apr"; "May"; "Jun"; "Jul"; "Aug"; "Sep"; "Oct";
   "Nov"; "Dec"].

(** [%B] *)
Definition month_name (m : Z) : string :=
  nth (Z.to_nat (m - 1)) month_names "".

(** [d.strftime("%B %Y")]; a year below 1000 is printed without
    padding, as the C library of Linux does. *)
Definition strftime_B_Y (d : Date) : string :=
  month_name (month d) ++ " " ++ show_Z (year d).

(** [d.strftime("%Y-%m")], with the year as in [strftime_B_Y]. *)
Definition strftime_Y_m (d : Date) : string :=
  show_Z (year d) ++ "-" ++ Float.two_digits (month d).

(** *** [datetime.strptime] for the two formats of the parser

    [_strptime] turns the format into a pattern: a directive becomes a
    group, a blank becomes [\s+], the names of the months are tried
    longest first, everything under IGNORECASE; the pattern is matched at
    the head of the text and must use all of it. *)

Fixpoint insert_by_length (w : string) (ws : list string) : list string :=
  match ws with
  | [] => [w]
  | v :: ws' =>
      if (String.length v <? String.length w)%nat
      then w :: ws
      else v :: insert_by_length w ws'
  end.

(** [sorted(names, key=len, reverse=True)] *)
Definition longest_first (names : list string) : list string :=
  fold_left (fun acc w => insert_by_length w acc) names [].

Definition names_re (names : list string) : re :=
  Grp (alt (map lit_i (longest_first names))).

(** [%d]: [3[0-1]|[1-2]\d|0[1-9]|[1-9]| [1-9]] *)
Definition day_re : re :=
  Grp (alt [ Cat (chr "3") (Cls (between 48 49));
             Cat (Cls (between 49 50)) (Cls is_digit);
             Cat (chr "0") (Cls (between 49 57));
             Cls (between 49 57);
             Cat (chr " ") (Cls (between 49 57)) ]).

(** [%Y]: [\d\d\d\d] *)
Definition year_re : re := Grp (times 4 4 is_digit).

(** The pattern of ["%B %d, %Y"], or of ["%b %d, %Y"]. *)
Definition format_re (names : list string) : re :=
  cat [ names_re names; plus is_space; day_re; chr_i ",";
        plus is_space; year_re ].

Fixpoint index_ci (w : string) (names : list string) (i : Z) : option Z :=
  match names with
  | [] => None
  | v :: names' =>
      if String.eqb (map_str lower v) (map_str lower w)
      then Some i
      else index_ci w names' (i + 1)
  end.

Definition strptime (names : list string) (text : string) : option Date :=
  match match_here (format_re names) text with
  | Some ([b; d; y], EmptyString) =>
      match index_ci b names 1 with
      | Some m => make_date (digits_value y 0) m (digits_value (strip d) 0)
      | None => None
      end
  | _ => None
  end.

End Dates.

(** ** [app/models/schemas.py] *)

Record ParsedInteracEmail : Type := mkParsed {
  email_id : string;
  sender_name : string;
  amount : Float.float;
  payment_date : Dates.Date;
  message_line : option string;
  raw_subject : string
}.

(** ** [GmailWatcher._parse_interac_email] *)

Module Parser.

Import Text Regex Dates.

(** [<[^>]+>] *)
Definition tag_re : re :=
  cat [chr "<"; plus (fun c => negb (Ascii.eqb c ">")); chr ">"].

(** [\s+] *)
Definition blanks_re : re := plus is_space.

(** The body with the markup removed, the runs of blanks collapsed and
    the ends trimmed. *)
Definition clean_body (body : string) : string :=
  let body_clean := Regex.sub tag_re " " body in
  strip (Regex.sub blanks_re " " body_clean).

(** [([0-9,]+\.[0-9]{2})] *)
Definition amount_group : re :=
  Grp (cat [ plus (fun c => is_digit c || Ascii.eqb c ",");
             chr ".";
             times 2 2 is_digit ]).

(** [You've received \$([0-9,]+\.[0-9]{2})], IGNORECASE *)
Definition amount_re : re :=
  cat [lit_i "You've received $"; amount_group].

(** [from\s+(.+)$], IGNORECASE *)
Definition from_re : re :=
  cat [lit_i "from"; plus is_space; Grp (plus dot); Dollar].

(** [[^D]] under IGNORECASE leaves out both [D] and [d]. *)
Definition not_D (c : ascii) : bool := negb (eq_ci c "D").

(** [Message:\s*([^D]+?)\s*(?:Date:|Reference|Sent From:|Amount:)],
    IGNORECASE *)
Definition message_re : re :=
  cat [ lit_i "Message:"; star is_space; Grp (plus_lazy not_D);
        star is_space;
        alt [ lit_i "Date:"; lit_i "Reference"; lit_i "Sent From:";
              lit_i "Amount:" ] ].

(** [Date:\s*([A-Za-z]{3,}\s*\d{1,2},\s*\d{4})], IGNORECASE *)
Definition date_re : re :=
  cat [ lit_i "Date:"; star is_space;
        Grp (cat [ at_least 3 is_alpha; star is_space; times 1 2 is_digit;
                   chr ","; star is_space; times 4 4 is_digit ]) ].

(** The characters of the amount group: digits, separators, the point. *)
Definition amount_char (c : ascii) : bool :=
  is_digit c || Ascii.eqb c "," || Ascii.eqb c ".".

Definition digit_or_point (c : ascii) : bool :=
  is_digit c || Ascii.eqb c ".".

Definition extract_amount (subject : string) : option Float.float :=
  match search amount_re subject with
  | Some amount_match =>
      let amount_str := remove_all "," (group1 amount_match) in
      Some (Float.of_decimal amount_str)
  | None => None
  end.

Definition extract_sender (subject : string) : option string :=
  match search from_re subject with
  | Some from_match =>
      let sender_name := strip (group1 from_match) in
      Some (join " " (map capitalize (split_ws sender_name)))
  | None => None
  end.

Definition extract_message_line (body_clean : string) : option string :=
  match search message_re body_clean with
  | Some msg_match => Some (strip (group1 msg_match))
  | None => None
  end.

(** The date written in the body: the long month name is tried first,
    then the abbreviated one, and [email_date] stands in when there is no
    date or neither format reads it. *)
Definition extract_date (body_clean : string) (email_date : Date) : Date :=
  match search date_re body_clean with
  | Some date_match =>
      match strptime month_names (group1 date_match) with
      | Some d => d
      | None =>
          match strptime month_abbrs (group1 date_match) with
          | Some d => d
          | None => email_date
          end
      end
  | None => email_date
  end.

Definition parse_interac_email (message_id subject body : string)
    (email_date : Date) : option ParsedInteracEmail :=
  let body_clean := clean_body body in
  match extract_amount subject with
  | None => None
  | Some amount =>
      match extract_sender subject with
      | None => None
      | Some sender_name =>
          Some {| email_id := message_id;
                  sender_name := sender_name;
                  amount := amount;
                  payment_date := extract_date body_clean email_date;
                  message_line := extract_message_line body_clean;
                  raw_subject := subject |}
      end
  end.

End Parser.

(** ** The external world: database rows, mailbox, invoicing *)

(** A row of the [tenants] table, with the columns the pipeline reads. *)
Record Tenant : Type := mkTenant {
  tenant_id : string;
  tenant_name : string;
  tenant_email : string;
  monthly_rent : Float.float;
  parking_fee : option Float.float;
  next_due_month : option string;
  last_invoice_no : option Z;
  invoice_ninja_client_id : option string
}.

(** A row of the [payments] table. *)
Record Payment : Type := mkPayment {
  pay_id : Z;
  pay_tenant_id : string;
  pay_amount : Float.float;
  pay_payment_date : Dates.Date;
  pay_period : string;
  pay_status : string;
  pay_email_id : option string;
  pay_invoice_ninja_invoice_id : option string;
  pay_email_sent : bool;
  pay_notes : option string
}.

Record Database : Type := mkDatabase {
  tenants : list Tenant;
  payments : list Payment
}.

(** A message of the mailbox: identifier, decoded [Subject] header and
    body, the calendar date of its [Date] header, and its labels. *)
Record Message : Type := mkMessage {
  msg_id : string;
  msg_subject : string;
  msg_body : string;
  msg_date : Dates.Date;
  msg_labels : list string
}.

Record World : Type := mkWorld {
  db : Database;
  inbox : list Message
}.

(** What [create_and_send_invoice] returns. *)
Record InvoiceResult : Type := mkInvoiceResult {
  client_id : string;
  invoice_id : string;
  invoice_number : option string
}.

(** The calls to the database and to the mailbox, each of which may raise. *)
Inductive Call : Type :=
| GmailList
| GmailGet (id : string)
| GmailModify (id : string)
| DbCheckDuplicate (email : string)
| DbGetTenantByName (name : string)
| DbCreatePayment (email : string)
| DbUpdateTenant (tenant : string)
| DbMarkEmailed (payment : Z).

(** The environment of one run: the current date, the calls that raise
    (with the text of the exception), the invoicing service (the text of
    its exception, or its result), and what Gmail's search makes of the
    [subject:] and [from:] terms of the query. *)
Record Env : Type := mkEnv {
  today : Dates.Date;
  raises : Call -> option string;
  create_and_send_invoice :
    Tenant -> Float.float -> string -> Dates.Date -> string + InvoiceResult;
  query_terms : Message -> bool
}.

(** ** Exceptions and the monad of effectful code *)

Inductive Exn : Type :=
| ValidationError (msg : string)   (* the processor's own exception *)
| OtherException (msg : string).   (* any other [Exception] *)

(** [str(e)] *)
Definition str_of_exn (e : Exn) : string :=
  match e with ValidationError msg | OtherException msg => msg end.

Module Eff.

(** A computation over a state [S] which returns or raises; the state
    reached is kept in both cases, nothing is rolled back. *)
Definition M (S A : Type) : Type := S -> (Exn + A) * S.

Definition ret {S A} (a : A) : M S A := fun s => (inr a, s).

Definition raise {S A} (e : Exn) : M S A := fun s => (inl e, s).

Definition bind {S A B} (m : M S A) (f : A -> M S B) : M S B :=
  fun s =>
    match m s with
    | (inr a, s') => f a s'
    | (inl e, s') => (inl e, s')
    end.

(** A computation that returns or raises without the state. *)
Definition lift {S A} (r : Exn + A) : M S A := fun s => (r, s).

Definition get {S} : M S S := fun s => (inr s, s).

Definition modify {S} (f : S -> S) : M S unit := fun s => (inr tt, f s).

(** A call to an external service: raises when the environment says so. *)
Definition call {S} (env : Env) (c : Call) : M S unit :=
  match raises env c with
  | Some msg => raise (OtherException msg)
  | None => ret tt
  end.

(** [try: m  except Exception as e: h e] *)
Definition try_except {S A} (m : M S A) (h : Exn -> M S A) : M S A :=
  fun s =>
    match m s with
    | (inl e, s') => h e s'
    | ok => ok
    end.

(** A computation on one component of a pair of states. *)
Definition on_snd {R S A} (m : M S A) : M (R * S) A :=
  fun rs =>
    match m (snd rs) with
    | (x, s') => (x, (fst rs, s'))
    end.

Definition on_fst {R S} (f : R -> R) : M (R * S) unit :=
  fun rs => (inr tt, (f (fst rs), snd rs)).

End Eff.

Notation "x <- m ;; k" := (Eff.bind m (fun x => k))
  (at level 61, m at next level, right associativity).
Notation "m ;;; k" := (Eff.bind m (fun _ => k))
  (at level 61, right associativity).

(** ** [app/db/supabase.py] *)

Module Supabase.

Import Text Eff.

(** *** The [ilike] filter

    PostgREST hands the operand to PostgreSQL's [ILIKE] as the pattern,
    after writing [%] for each [*].  The server (a database in UTF-8)
    puts pattern and value in lower case and matches them with
    [MatchText]: in the pattern [_] stands for any one character, [%] for
    any run of characters, a backslash makes the next character literal,
    and the other characters stand for themselves.  The pattern has to
    cover the whole value.  On the ASCII letters the lower case is that
    of the locales [C] and [en_US]; a letter above 127, which the server
    folds according to its locale, is left as it is here (see the
    conventions). *)

(** What [MatchText] answers; [LIKE_ERROR] stands for the error that it
    reports when it reaches a backslash that ends the pattern. *)
Inductive Verdict : Type := LIKE_TRUE | LIKE_FALSE | LIKE_ABORT | LIKE_ERROR.

(** The pattern can match the empty text: it is made of [%] only. *)
Fixpoint all_percent (p : string) : bool :=
  match p with
  | EmptyString => true
  | String c p' => Ascii.eqb c "%" && all_percent p'
  end.

(** [MatchText(t, p)].  After a [%] the pattern is read on ([skip]) over
    further [%] and over [_], which takes one character each, up to a
    literal character, and the text is searched ([scan]) for the places
    where that character stands and the rest matches. *)
Fixpoint like (p t : string) {struct p} : Verdict :=
  match p with
  | EmptyString =>
      match t with EmptyString => LIKE_TRUE | _ => LIKE_FALSE end
  | String c p' =>
      match t with
      | EmptyString => if all_percent p then LIKE_TRUE else LIKE_ABORT
      | String d t' =>
          if Ascii.eqb c "\" then
            match p' with
            | EmptyString => LIKE_ERROR
            | String e p'' =>
                if Ascii.eqb e d then like p'' t' else LIKE_FALSE
            end
          else if Ascii.eqb c "%" then
            (fix skip (q : string) : string -> Verdict :=
               match q with
               | EmptyString => fun _ => LIKE_TRUE
               | String c1 q' =>
                   if Ascii.eqb c1 "%" then skip q'
                   else if Ascii.eqb c1 "_" then
                     fun u =>
                       match u with
                       | EmptyString => LIKE_ABORT
                       | String _ u' => skip q' u'
                       end
                   else if Ascii.eqb c1 "\" then
                     match q' with
                     | EmptyString => fun _ => LIKE_ERROR
                     | String e q'' =>
                         fix scan (u : string) : Verdict :=
                           match u with
                           | EmptyString => LIKE_ABORT
                           | String d1 u' =>
                               if Ascii.eqb d1 e
                               then match like q'' u' with
                                    | LIKE_FALSE => scan u'
                                    | v => v
                                    end
                               else scan u'
                           end
                     end
                   else
                     fix scan (u : string) : Verdict :=
                       match u with
                       | EmptyString => LIKE_ABORT
                       | String d1 u' =>
                           if Ascii.eqb d1 c1
                           then match like q' u' with
                                | LIKE_FALSE => scan u'
                                | v => v
                                end
                           else scan u'
                       end
               end) p' t
          else if Ascii.eqb c "_" then like p' t'
          else if Ascii.eqb c d then like p' t'
          else LIKE_FALSE
      end
  end.

Definition star_to_percent (c : ascii) : ascii :=
  if Ascii.eqb c "*" then "%"%char else c.

Definition ilike (pattern value : string) : Verdict :=
  like (map_str lower (map_str star_to_percent pattern))
       (map_str lower value).

Definition is_match (v : Verdict) : bool :=
  match v with LIKE_TRUE => true | _ => false end.

Definition is_error (v : Verdict) : bool :=
  match v with LIKE_ERROR => true | _ => false end.

(** A character that the filter reads as itself. *)
Definition plain (c : ascii) : bool :=
  negb (Ascii.eqb c "%" || Ascii.eqb c "_" || Ascii.eqb c "\"
        || Ascii.eqb c "*").

(** [get_tenant_by_name]: the first row whose name the pattern covers.
    The server reads every row, and the error on one of them is the
    error of the query; the text of the exception is abridged to the
    message of the server. *)
Definition get_tenant_by_name (env : Env) (name : string)
  : M World (option Tenant) :=
  call env (DbGetTenantByName name) ;;;
  w <- get ;;
  if existsb (fun t => is_error (ilike name (tenant_name t)))
             (tenants (db w))
  then raise (OtherException "LIKE pattern must not end with escape character")
  else ret (hd_error (filter (fun t => is_match (ilike name (tenant_name t)))
                             (tenants (db w)))).

Definition same_email (email : string) (p : Payment) : bool :=
  match pay_email_id p with
  | Some e => String.eqb e email
  | None => false
  end.

(** [check_duplicate_payment] *)
Definition check_duplicate_payment (env : Env) (email : string)
  : M World bool :=
  call env (DbCheckDuplicate email) ;;;
  w <- get ;;
  ret (negb (Nat.eqb (List.length (filter (same_email email)
                                          (payments (db w)))) 0)).

Definition with_db (f : Database -> Database) (w : World) : World :=
  mkWorld (f (db w)) (inbox w).

(** [create_payment]: the row is appended with a fresh identifier and
    comes back. *)
Definition create_payment (env : Env) (tenant : string)
    (amount : Float.float) (payment_date : Dates.Date) (period : string)
    (email : string) (invoice : option string) (notes : string)
  : M World Payment :=
  call env (DbCreatePayment email) ;;;
  w <- get ;;
  let row :=
    {| pay_id := Z.of_nat (List.length (payments (db w))) + 1;
       pay_tenant_id := tenant;
       pay_amount := amount;
       pay_payment_date := payment_date;
       pay_period := period;
       pay_status := "completed";
       pay_email_id := Some email;
       pay_invoice_ninja_invoice_id := invoice;
       pay_email_sent := false;
       pay_notes := Some notes |} in
  modify (with_db (fun d =>
    mkDatabase (tenants d) (payments d ++ [row])%list)) ;;;
  ret row.

Definition update_tenant (tenant : string) (new_invoice_no : Z)
    (new_next_due : string) (client : option string) (t : Tenant) : Tenant :=
  if String.eqb (tenant_id t) tenant
  then {| tenant_id := tenant_id t;
          tenant_name := tenant_name t;
          tenant_email := tenant_email t;
          monthly_rent := monthly_rent t;
          parking_fee := parking_fee t;
          next_due_month := Some new_next_due;
          last_invoice_no := Some new_invoice_no;
          invoice_ninja_client_id :=
            match client with
            | Some c => if nonempty c then Some c
                        else invoice_ninja_client_id t
            | None => invoice_ninja_client_id t
            end |}
  else t.

(** [update_tenant_after_payment] *)
Definition update_tenant_after_payment (env : Env) (tenant : string)
    (new_invoice_no : Z) (new_next_due : string) (client : option string)
  : M World unit :=
  call env (DbUpdateTenant tenant) ;;;
  modify (with_db (fun d =>
    mkDatabase (map (update_tenant tenant new_invoice_no new_next_due client)
                    (tenants d))
               (payments d))).

Definition set_emailed (payment : Z) (p : Payment) : Payment :=
  if pay_id p =? payment
  then {| pay_id := pay_id p;
          pay_tenant_id := pay_tenant_id p;
          pay_amount := pay_amount p;
          pay_payment_date := pay_payment_date p;
          pay_period := pay_period p;
          pay_status := pay_status p;
          pay_email_id := pay_email_id p;
          pay_invoice_ninja_invoice_id := pay_invoice_ninja_invoice_id p;
          pay_email_sent := true;
          pay_notes := pay_notes p |}
  else p.

(** [mark_payment_emailed] *)
Definition mark_payment_emailed (env : Env) (payment : Z) : M World unit :=
  call env (DbMarkEmailed payment) ;;;
  modify (with_db (fun d =>
    mkDatabase (tenants d) (map (set_emailed payment) (payments d)))).

End Supabase.

(** ** [app/services/gmail_watcher.py]: the mailbox *)

Module Gmail.

Import Text Eff.

Definition PROCESSED_LABEL : string := "MyPropMate_Processed".

Definition has_label (l : string) (m : Message) : bool :=
  existsb (String.eqb l) (msg_labels m).

(** [INTERAC_QUERY]: the [subject:] and [from:] terms, and not the label
    of the processed messages. *)
Definition interac_query (env : Env) (m : Message) : bool :=
  query_terms env m && negb (has_label PROCESSED_LABEL m).

(** [messages().list(q, maxResults)]: the identifiers of at most
    [maxResults] messages that the query selects. *)
Definition messages_list (env : Env) (maxResults : nat)
  : M World (list string) :=
  call env GmailList ;;;
  w <- get ;;
  ret (map msg_id (firstn maxResults (filter (interac_query env) (inbox w)))).

(** [messages().get(id)] *)
Definition messages_get (env : Env) (id : string) : M World Message :=
  call env (GmailGet id) ;;;
  w <- get ;;
  match find (fun m => String.eqb (msg_id m) id) (inbox w) with
  | Some m => ret m
  | None => raise (OtherException "Requested entity was not found.")
  end.

(** The loop of [fetch_new_payments] over the message references. *)
Fixpoint fetch_each (env : Env) (refs : list string)
  : M World (list ParsedInteracEmail) :=
  match refs with
  | [] => ret []
  | id :: refs' =>
      message <- messages_get env id ;;
      let parsed :=
        Parser.parse_interac_email id (msg_subject message)
          (msg_body message) (msg_date message) in
      rest <- fetch_each env refs' ;;
      ret (match parsed with
           | Some p => p :: rest
           | None => rest
           end)
  end.

(** [fetch_new_payments] *)
Definition fetch_new_payments (env : Env) : M World (list ParsedInteracEmail) :=
  messages <- messages_list env 20 ;;
  fetch_each env messages.

Definition add_label (l : string) (m : Message) : Message :=
  if has_label l m then m
  else mkMessage (msg_id m) (msg_subject m) (msg_body m) (msg_date m)
                 (msg_labels m ++ [l])%list.

Definition label_message (id : string) (m : Message) : Message :=
  if String.eqb (msg_id m) id then add_label PROCESSED_LABEL m else m.

(** The world once the message [id] carries the label. *)
Definition labelled (id : string) (w : World) : World :=
  mkWorld (db w) (map (label_message id) (inbox w)).

(** [mark_as_processed] *)
Definition mark_as_processed (env : Env) (id : string) : M World unit :=
  call env (GmailModify id) ;;;
  modify (labelled id).

End Gmail.

(** ** [app/services/payment_processor.py] *)

(** What [_process_single_payment] returns. *)
Inductive ProcessResult : Type :=
| skipped_result (reason email : string)
| success_result (tenant : string) (amount : Float.float) (period : string)
    (invoice_number : option string) (payment_id : Z).

(** An entry of [results["errors"]]. *)
Inductive ErrorInfo : Type :=
| validation_error (email sender : string) (amount : Float.float)
    (error : string)
| unexpected_error (email sender : string) (error : string)
| fetch_error (error : string).

Record Results : Type := mkResults {
  processed : list ProcessResult;
  errors : list ErrorInfo;
  skipped : list ProcessResult
}.

Module Processor.

Import Text Eff Dates.

(** [AMOUNT_TOLERANCE = 0.01] *)
Definition AMOUNT_TOLERANCE : Float.float := Float.of_decimal "0.01".

(** *** Integers and year-month texts *)

(** After the sign: digits, with single underscores between digits. *)
Fixpoint digits_ok (after_digit : bool) (s : string) : bool :=
  match s with
  | EmptyString => after_digit
  | String c s' =>
      if is_digit c then digits_ok true s'
      else if Ascii.eqb c "_" then after_digit && digits_ok false s'
      else false
  end.

(** The blanks that [int] skips at both ends of a text of ASCII: the
    blank, TAB, LF, VT, FF and CR. *)
Definition int_blank (c : ascii) : bool :=
  between 9 13 c || Ascii.eqb c " ".

Fixpoint skip_blanks (s : string) : string :=
  match s with
  | String c s' => if int_blank c then skip_blanks s' else s
  | EmptyString => EmptyString
  end.

(** [sys.get_int_max_str_digits()], as CPython sets it. *)
Definition max_str_digits : nat := 4300.

(** [int(s)], [None] for ValueError: blanks at the ends, a sign, decimal
    digits with single underscores between them, and no more digits than
    the limit of the conversion. *)
Definition py_int (s : string) : option Z :=
  let t := rev_str (skip_blanks (rev_str (skip_blanks s))) in
  let '(negative, body) :=
    match t with
    | String c t' =>
        if Ascii.eqb c "-" then (true, t')
        else if Ascii.eqb c "+" then (false, t')
        else (false, t)
    | EmptyString => (false, t)
    end in
  let digits := filter_str is_digit body in
  if digits_ok false body
     && (String.length digits <=? max_str_digits)%nat
  then let n := digits_value digits 0 in
       Some (if negative then - n else n)
  else None.

(** The exceptions of [int] and of [date]. *)
Inductive PyError : Type :=
| ValueError
| OverflowError (msg : string).

(** An argument of [date] is taken as a C [int], by way of a C [long] of
    64 bits. *)
Definition as_c_int (n : Z) : option string :=
  if (n <? - 2 ^ 63) || (2 ^ 63 <=? n)
  then Some "Python int too large to convert to C long"
  else if 2 ^ 31 <=? n then Some "signed integer is greater than maximum"
  else if n <? - 2 ^ 31 then Some "signed integer is less than minimum"
  else None.

(** [date(y, m, d)]: the arguments are converted from the left, then the
    date is checked. *)
Definition py_date (y m d : Z) : PyError + Date :=
  match as_c_int y, as_c_int m, as_c_int d with
  | Some msg, _, _ => inl (OverflowError msg)
  | None, Some msg, _ => inl (OverflowError msg)
  | None, None, Some msg => inl (OverflowError msg)
  | None, None, None =>
      match make_date y m d with
      | Some dt => inr dt
      | None => inl ValueError
      end
  end.

(** [year, month = s.split("-"); date(int(year), int(month), 1)] *)
Definition first_of_month (s : string) : PyError + Date :=
  match split_on "-" s with
  | [y; m] =>
      match py_int y with
      | None => inl ValueError
      | Some y' =>
          match py_int m with
          | None => inl ValueError
          | Some m' => py_date y' m' 1
          end
      end
  | _ => inl ValueError
  end.

(** [d + relativedelta(months=1)], [None] when the year leaves the
    calendar. *)
Definition plus_one_month (d : Date) : option Date :=
  let y := if month d =? 12 then year d + 1 else year d in
  let m := if month d =? 12 then 1 else month d + 1 in
  if y <=? 9999
  then Some (mkDate y m (Z.min (day d) (days_in_month y m)))
  else None.

(** The text of a period of the ledger, [YYYY-MM]. *)
Definition year_month (y m : Z) : string :=
  Float.two_digits (y / 100) ++ Float.two_digits (y mod 100) ++ "-"
  ++ Float.two_digits m.

(** The text of the period [y]-[m] is read as the first day of that
    month. *)
Definition reads_back (y m : Z) : bool :=
  match first_of_month (year_month y m) with
  | inr d => (year d =? y) && (month d =? m) && (day d =? 1)
  | inl _ => false
  end.

(** *** [_determine_period] *)

Definition clean_message (message : string) : string :=
  strip (remove_all "Rent" (remove_all "rent" message)).

Definition period_of_payment_date (payment : ParsedInteracEmail) : string :=
  strftime_B_Y (payment_date payment).

(** The part after the message line: the [try] statement catches the
    ValueError and lets the OverflowError of [date] go. *)
Definition period_of_next_due (payment : ParsedInteracEmail)
    (tenant : Tenant) : Exn + string :=
  match next_due_month tenant with
  | Some next_due =>
      if nonempty next_due
      then match first_of_month next_due with
           | inr dt => inr (strftime_B_Y dt)
           | inl ValueError => inr (period_of_payment_date payment)
           | inl (OverflowError msg) => inl (OtherException msg)
           end
      else inr (period_of_payment_date payment)
  | None => inr (period_of_payment_date payment)
  end.

Definition determine_period (payment : ParsedInteracEmail) (tenant : Tenant)
  : Exn + string :=
  match message_line payment with
  | Some message =>
      if nonempty message
      then let period := clean_message message in
           if nonempty period then inr period
           else period_of_next_due payment tenant
      else period_of_next_due payment tenant
  | None => period_of_next_due payment tenant
  end.

(** *** [_bump_month] *)

Definition next_month_from_today {S} (env : Env) : M S string :=
  match plus_one_month (today env) with
  | Some next_month => ret (strftime_Y_m next_month)
  | None => raise (OtherException "year 10000 is out of range")
  end.

Definition bump_month {S} (env : Env) (year_month : option string)
  : M S string :=
  match year_month with
  | None => next_month_from_today env
  | Some ym =>
      if nonempty ym
      then match first_of_month ym with
           | inr current =>
               match plus_one_month current with
               | Some next_month => ret (strftime_Y_m next_month)
               | None => next_month_from_today env
               end
           | inl ValueError => next_month_from_today env
           | inl (OverflowError msg) => raise (OtherException msg)
           end
      else next_month_from_today env
  end.

(** *** Amount validation *)

(** [float(tenant.get("parking_fee", 0) or 0)] *)
Definition parking_fee_of (tenant : Tenant) : Float.float :=
  match parking_fee tenant with
  | Some fee => if Float.truthy fee then fee else Float.zero
  | None => Float.zero
  end.

Definition expected_amount (tenant : Tenant) : Float.float :=
  Float.add (monthly_rent tenant) (parking_fee_of tenant).

(** The test of the [if] that raises. *)
Definition amount_mismatch (received : Float.float) (tenant : Tenant) : bool :=
  Float.gt (Float.abs (Float.sub received (expected_amount tenant)))
           AMOUNT_TOLERANCE.

Definition tenant_not_found_message (payment : ParsedInteracEmail) : string :=
  "Tenant not found in database: " ++ sender_name payment.

Definition amount_mismatch_message (payment : ParsedInteracEmail)
    (tenant : Tenant) : string :=
  "Amount mismatch: received $" ++ Float.format_2f (amount payment)
  ++ ", expected $" ++ Float.format_2f (expected_amount tenant)
  ++ " (rent: $" ++ Float.format_2f (monthly_rent tenant)
  ++ " + parking: $" ++ Float.format_2f (parking_fee_of tenant) ++ ")".

(** *** [_process_single_payment] *)

Definition invoice_and_send (env : Env) (tenant : Tenant)
    (payment : ParsedInteracEmail) (period : string) : M World InvoiceResult :=
  match create_and_send_invoice env tenant (amount payment) period
          (payment_date payment) with
  | inr invoice_result => ret invoice_result
  | inl msg => raise (OtherException msg)
  end.

Definition payment_notes (payment : ParsedInteracEmail) : string :=
  "Auto-processed from email. Message: "
  ++ match message_line payment with
     | Some message => if nonempty message then message else "N/A"
     | None => "N/A"
     end.

Definition process_single_payment (env : Env) (payment : ParsedInteracEmail)
  : M World ProcessResult :=
  is_duplicate <- Supabase.check_duplicate_payment env (email_id payment) ;;
  if is_duplicate : bool
  then ret (skipped_result "duplicate" (email_id payment))
  else
    found <- Supabase.get_tenant_by_name env (sender_name payment) ;;
    match found with
    | None => raise (ValidationError (tenant_not_found_message payment))
    | Some tenant =>
        if amount_mismatch (amount payment) tenant
        then raise (ValidationError (amount_mismatch_message payment tenant))
        else
          period <- lift (determine_period payment tenant) ;;
          invoice_result <- invoice_and_send env tenant payment period ;;
          let last_invoice_no :=
            match last_invoice_no tenant with Some n => n | None => 0 end in
          let new_invoice_no := last_invoice_no + 1 in
          new_next_due <- bump_month env (next_due_month tenant) ;;
          db_payment <- Supabase.create_payment env (tenant_id tenant)
                          (amount payment) (payment_date payment) period
                          (email_id payment)
                          (Some (invoice_id invoice_result))
                          (payment_notes payment) ;;
          Supabase.update_tenant_after_payment env (tenant_id tenant)
            new_invoice_no new_next_due
            (Some (client_id invoice_result)) ;;;
          Supabase.mark_payment_emailed env (pay_id db_payment) ;;;
          ret (success_result (tenant_name tenant) (amount payment) period
                 (invoice_number invoice_result) (pay_id db_payment))
    end.

(** *** [process_new_payments] *)

Definition add_processed (r : ProcessResult) (res : Results) : Results :=
  mkResults (processed res ++ [r]) (errors res) (skipped res).

Definition add_error (e : ErrorInfo) (res : Results) : Results :=
  mkResults (processed res) (errors res ++ [e]) (skipped res).

Definition no_results : Results := mkResults [] [] [].

(** The body of the inner [try]. *)
Definition try_payment (env : Env) (payment : ParsedInteracEmail)
  : M (Results * World) unit :=
  result <- on_snd (process_single_payment env payment) ;;
  on_fst (add_processed result) ;;;
  on_snd (Gmail.mark_as_processed env (email_id payment)).

(** The two [except] clauses of the inner [try]; the notification of the
    landlord only prints and swallows its own exceptions. *)
Definition except_payment (env : Env) (payment : ParsedInteracEmail)
    (e : Exn) : M (Results * World) unit :=
  match e with
  | ValidationError msg =>
      on_fst (add_error (validation_error (email_id payment)
                           (sender_name payment) (amount payment) msg)) ;;;
      on_snd (Gmail.mark_as_processed env (email_id payment))
  | OtherException msg =>
      on_fst (add_error (unexpected_error (email_id payment)
                           (sender_name payment)
                           ("Unexpected error: " ++ msg)))
  end.

(** One turn of the loop: the inner [try] statement. *)
Definition turn (env : Env) (payment : ParsedInteracEmail)
  : M (Results * World) unit :=
  try_except (try_payment env payment) (except_payment env payment).

(** The [for] loop: an exception that leaves a handler ends it. *)
Fixpoint for_payments (env : Env) (payments : list ParsedInteracEmail)
  : M (Results * World) unit :=
  match payments with
  | [] => ret tt
  | payment :: rest => turn env payment ;;; for_payments env rest
  end.

Definition except_fetch (e : Exn) : M (Results * World) unit :=
  on_fst (add_error (fetch_error ("Failed to fetch payments: "
                                  ++ str_of_exn e))).

Definition process_new_payments (env : Env) (w : World) : Results * World :=
  snd (try_except
         (payments <- on_snd (Gmail.fetch_new_payments env) ;;
          for_payments env payments)
         except_fetch
         (no_results, w)).

End Processor.

(** ** The vocabulary of the specification *)

(** The outcome of reconciling one payment. *)
Inductive ReconciliationOutcome : Type :=
| Success (tenant : string) (amount : Float.float) (period : string)
    (invoice_number : option string) (payment_id : Z)
| Skipped (reason : string)
| ValidationFailed (reason : string)
| Fatal (reason : string).

(** How the outcome shows in the code: the two dictionaries that
    [_process_single_payment] returns, its own exception, and any other
    exception. *)
Definition outcome_of (r : Exn + ProcessResult) : ReconciliationOutcome :=
  match r with
  | inr (success_result tenant amount period number payment) =>
      Success tenant amount period number payment
  | inr (skipped_result reason _) => Skipped reason
  | inl (ValidationError msg) => ValidationFailed msg
  | inl (OtherException msg) => Fatal msg
  end.

(** A message is consumed when it carries the label that the search
    query excludes. *)
Definition consumed_in (w : World) (id : string) : Prop :=
  forall m, In m (inbox w) -> msg_id m = id ->
            Gmail.has_label Gmail.PROCESSED_LABEL m = true.

(** *** The message line and the period, in the words of the
    specification *)

Module Spec.

Import Text.

Fixpoint skip (n : nat) (s : string) : string :=
  match n, s with
  | S n', String _ s' => skip n' s'
  | _, _ => s
  end.

(** The text that follows the first occurrence of [token]. *)
Fixpoint after_token (token s : string) : option string :=
  if starts_with token s then Some (skip (String.length token) s)
  else match s with
       | EmptyString => None
       | String _ s' => after_token token s'
       end.

(** The text in front of the first occurrence of one of [tokens]. *)
Fixpoint before_any (tokens : list string) (s : string) : option string :=
  if existsb (fun t => starts_with t s) tokens then Some EmptyString
  else match s with
       | EmptyString => None
       | String c s' => option_map (String c) (before_any tokens s')
       end.

(** The text following the token "Message:" up to the next occurrence of
    "Date:", "Reference", "Sent From:" or "Amount:", trimmed. *)
Definition message_text (body_clean : string) : option string :=
  match after_token "Message:" body_clean with
  | Some rest =>
      option_map strip
        (before_any ["Date:"; "Reference"; "Sent From:"; "Amount:"] rest)
  | None => None
  end.

Fixpoint starts_with_ci (pre s : string) : bool :=
  match pre, s with
  | EmptyString, _ => true
  | String a pre', String b s' => eq_ci a b && starts_with_ci pre' s'
  | String _ _, EmptyString => false
  end.

Fixpoint remove_ci_go (old : string) (n : nat) (s : string) : string :=
  match s with
  | EmptyString => EmptyString
  | String c s' =>
      match n with
      | S n' => remove_ci_go old n' s'
      | O =>
          if starts_with_ci old s
          then remove_ci_go old (Nat.pred (String.length old)) s'
          else String c (remove_ci_go old O s')
      end
  end.

(** [s] without the occurrences of [old], whatever their letter case. *)
Definition remove_ci (old s : string) : string := remove_ci_go old O s.

(** The period: the message line without "rent" in any letter case,
    trimmed, when that is not empty; else the next due period; else the
    payment date. *)
Definition period (payment : ParsedInteracEmail) (tenant : Tenant)
  : Exn + string :=
  match message_line payment with
  | Some message =>
      let label := strip (remove_ci "rent" message) in
      if nonempty label then inr label
      else Processor.period_of_next_due payment tenant
  | None => Processor.period_of_next_due payment tenant
  end.

(** *** The tolerance, on amounts of two decimals

    An amount of two decimals is a number of cents. *)

(** The text of the amount, as the subject of a notification and the
    database carry it. *)
Definition amount_text (cents : Z) : string :=
  show_Z (cents / 100) ++ "." ++ Float.two_digits (cents mod 100).

(** [abs(received - expected) <= 0.01] *)
Definition within_tolerance (received expected : Z) : bool :=
  Z.abs (received - expected) <=? 1.

End Spec.

(** ** Data of the scenarios *)

Module Scenario.

Definition subject : string :=
  "Interac e-Transfer: You've received $1,350.00 from John Doe".

Definition body : string := "Message: November rent Date: November 1, 2024".

(** The same body as the mail carries it, in markup. *)
Definition html_body : string :=
  "<html><body><p><b>Message:</b> November rent</p>  "
  ++ "<p>Date: November 1, 2024</p></body></html>".

Definition john : Tenant :=
  {| tenant_id := "tenant-1";
     tenant_name := "John Doe";
     tenant_email := "john@example.com";
     monthly_rent := Float.of_decimal "1200.00";
     parking_fee := Some (Float.of_decimal "150.00");
     next_due_month := Some "2024-11";
     last_invoice_no := Some 5;
     invoice_ninja_client_id := None |}.

Definition received : Dates.Date := Dates.mkDate 2024 11 2.

Definition invoice : InvoiceResult :=
  {| client_id := "client-1"; invoice_id := "invoice-1";
     invoice_number := Some "0006" |}.

(** Every service answers. *)
Definition env_ok : Env :=
  {| today := received;
     raises := fun _ => None;
     create_and_send_invoice := fun _ _ _ _ => inr invoice;
     query_terms := fun _ => true |}.

(** The invoicing service is down. *)
Definition env_no_invoicing : Env :=
  {| today := received;
     raises := fun _ => None;
     create_and_send_invoice := fun _ _ _ _ => inl "503 Service Unavailable";
     query_terms := fun _ => true |}.

Definition message (id subject : string) : Message :=
  mkMessage id subject body received [].

Definition world : World :=
  mkWorld (mkDatabase [john] []) [message "msg-1" subject].

(** A payment row stored for the message, as after a run that recorded
    the payment and could not label the message. *)
Definition stored_payment : Payment :=
  {| pay_id := 1;
     pay_tenant_id := "tenant-1";
     pay_amount := Float.of_decimal "1350.00";
     pay_payment_date := Dates.mkDate 2024 11 1;
     pay_period := "November";
     pay_status := "completed";
     pay_email_id := Some "msg-1";
     pay_invoice_ninja_invoice_id := Some "invoice-1";
     pay_email_sent := true;
     pay_notes := None |}.

Definition world_paid : World :=
  mkWorld (mkDatabase [john] [stored_payment]) [message "msg-1" subject].

Definition payment : ParsedInteracEmail :=
  {| email_id := "msg-1";
     sender_name := "John Doe";
     amount := Float.of_decimal "1350.00";
     payment_date := Dates.mkDate 2024 11 1;
     message_line := Some "November rent";
     raw_subject := subject |}.

(** The payment with another message line, the tenant with another next
    due period. *)
Definition payment_saying (message : option string) : ParsedInteracEmail :=
  {| email_id := "msg-1";
     sender_name := "John Doe";
     amount := Float.of_decimal "1350.00";
     payment_date := Dates.mkDate 2024 11 1;
     message_line := message;
     raw_subject := subject |}.

Definition john_due (due : option string) : Tenant :=
  {| tenant_id := "tenant-1";
     tenant_name := "John Doe";
     tenant_email := "john@example.com";
     monthly_rent := Float.of_decimal "1200.00";
     parking_fee := Some (Float.of_decimal "150.00");
     next_due_month := due;
     last_invoice_no := Some 5;
     invoice_ninja_client_id := None |}.

End Scenario.

(** ** More of the code *)

(** *** [GmailWatcher._extract_body] *)

Module Mime.

Import Text.

(** A MIME payload of the Gmail API: the media type, the [body] entry
    with its [data] when it has one, and the [parts] when it has them. *)
#[local] Set Warnings "-register-all".
Inductive Payload : Type :=
| mkPayload (mimeType : string) (body : option (option string))
    (parts : option (list Payload)).
#[local] Set Warnings "register-all".

Definition mime_of (p : Payload) : string :=
  match p with mkPayload m _ _ => m end.

Definition body_of (p : Payload) : option (option string) :=
  match p with mkPayload _ b _ => b end.

Definition parts_of (p : Payload) : option (list Payload) :=
  match p with mkPayload _ _ ps => ps end.

(** [d.get('data')] as a condition: present and not empty. *)
Definition has_data (d : option string) : bool :=
  match d with Some t => nonempty t | None => false end.

Definition data_of (d : option string) : string :=
  match d with Some t => t | None => "" end.

Section Extract.

(** [base64.urlsafe_b64decode(data).decode('utf-8', errors='ignore')] *)
Variable decode : string -> string.

(** The body that the payload itself carries. *)
Definition own_body (top : option (option string)) : string :=
  match top with
  | Some d => if has_data d then decode (data_of d) else ""
  | None => ""
  end.

Section Loop.

(** The extraction from a part that has parts: the recursive call. *)
Variable nested : Payload -> option string.

(** The loop over the parts, entered with the body found so far;
    [None] stands for the KeyError of a text part without a [body]
    entry. *)
Fixpoint over_parts (ps : list Payload) (body : string) : option string :=
  match ps with
  | [] => Some body
  | part :: rest =>
      if String.eqb (mime_of part) "text/html" then
        match body_of part with
        | None => None
        | Some d =>
            if has_data d then Some (decode (data_of d))
            else over_parts rest body
        end
      else if String.eqb (mime_of part) "text/plain" then
        match body_of part with
        | None => None
        | Some d =>
            if has_data d then over_parts rest (decode (data_of d))
            else over_parts rest body
        end
      else
        match parts_of part with
        | Some _ =>
            match nested part with
            | None => None
            | Some inner =>
                if nonempty inner then Some inner
                else over_parts rest inner
            end
        | None => over_parts rest body
        end
  end.

End Loop.

(** [_extract_body] *)
Fixpoint extract_body (payload : Payload) : option string :=
  match payload with
  | mkPayload _ top parts =>
      match parts with
      | None => Some (own_body top)
      | Some ps => over_parts extract_body ps (own_body top)
      end
  end.

End Extract.

(** A part of text with data and without parts of its own. *)
Definition leaf (mime data : string) : Payload :=
  mkPayload mime (Some (Some data)) None.

Definition is_html_leaf (p : Payload) : bool :=
  String.eqb (mime_of p) "text/html".

(** The parts are leaves of [text/plain] or [text/html] with data. *)
Definition text_leaves (ps : list Payload) : Prop :=
  Forall (fun p =>
            (mime_of p = "text/plain" \/ mime_of p = "text/html")
            /\ (exists t, body_of p = Some (Some t) /\ nonempty t = true))
         ps.

Definition data_text (p : Payload) : string :=
  match body_of p with Some d => data_of d | None => "" end.

End Mime.

(** *** [InvoiceNinjaClient]: the contact of a client, the line items of
    an invoice *)

Module Ninja.

Import Text.

(** [name.split()[0] if name else ""]; [None] stands for the IndexError
    of a name of blanks. *)
Definition first_name (name : string) : option string :=
  if nonempty name
  then match split_ws name with
       | w :: _ => Some w
       | [] => None
       end
  else Some "".

(** [" ".join(name.split()[1:]) if len(name.split()) > 1 else ""] *)
Definition last_name (name : string) : string :=
  if (1 <? List.length (split_ws name))%nat
  then join " " (tl (split_ws name))
  else "".

(** An entry of [line_items]. *)
Record LineItem : Type := mkLineItem {
  product_key : string;
  notes : string;
  quantity : Z;
  cost : Float.float
}.

(** The line items that [create_and_send_invoice] builds: the rent and
    the parking fee, each when above zero. *)
Definition line_items (tenant : Tenant) (period : string) : list LineItem :=
  let monthly_rent := monthly_rent tenant in
  let rent_item :=
    if Float.gt monthly_rent Float.zero
    then [mkLineItem "RENT" ("Monthly Rent - " ++ period) 1 monthly_rent]
    else [] in
  let parking_fee := Processor.parking_fee_of tenant in
  let parking_item :=
    if Float.gt parking_fee Float.zero
    then [mkLineItem "PARKING" ("Parking Fee - " ++ period) 1 parking_fee]
    else [] in
  (rent_item ++ parking_item)%list.

(** The sum of the costs, from the left. *)
Definition total (items : list LineItem) : Float.float :=
  fold_left (fun acc item => Float.add acc (cost item)) items Float.zero.

End Ninja.

(** *** [SupabaseClient.create_tenant], [get_tenant_by_id] *)

Module Admin.

Import Text Eff.

(** [str(n).zfill(2)] for a number that is not negative. *)
Definition zfill2 (n : Z) : string :=
  let t := show_Z n in
  if (String.length t <? 2)%nat then String "0" t else t.

(** The [next_due_month] that [create_tenant] gives a new tenant:
    [f"{today.year}-{str(today.month).zfill(2)}"]. *)
Definition new_next_due (today : Dates.Date) : string :=
  show_Z (Dates.year today) ++ "-" ++ zfill2 (Dates.month today).

(** [get_tenant_by_id]: the first row of that identifier; [fault] is the
    exception of the query, when it raises. *)
Definition get_tenant_by_id (fault : option string) (id : string)
  : M World (option Tenant) :=
  match fault with
  | Some msg => raise (OtherException msg)
  | None =>
      w <- get ;;
      ret (hd_error (filter (fun t => String.eqb (tenant_id t) id)
                            (tenants (db w))))
  end.

(** The year prints in four digits as the ledger writes it, and the
    month in two. *)
Definition year_prints_alike (y : Z) : bool :=
  String.eqb (show_Z y)
             (Float.two_digits (y / 100) ++ Float.two_digits (y mod 100)).

Definition month_prints_alike (m : Z) : bool :=
  String.eqb (zfill2 m) (Float.two_digits m).

End Admin.

(** *** Properties of texts and of the mailbox, as predicates *)

Module Shape.

Import Text.

(** A word: not empty and without blanks. *)
Definition word (w : string) : Prop :=
  w <> "" /\ Regex.all_chars (fun c => negb (is_space c)) w = true.


(** The messages that one poll lists. *)
Definition listed (env : Env) (w : World) : list Message :=
  firstn 20 (filter (Gmail.interac_query env) (inbox w)).

(** The message as the parser sees it. *)
Definition parse_message (m : Message) : option ParsedInteracEmail :=
  Parser.parse_interac_email (msg_id m) (msg_subject m) (msg_body m)
    (msg_date m).

End Shape.

(** *** More scenarios *)

Module Cases.

Import Scenario.

(** The update of the tenant row raises. *)
Definition env_no_update : Env :=
  {| today := received;
     raises := fun c => match c with
                        | DbUpdateTenant _ => Some "connection reset"
                        | _ => None
                        end;
     create_and_send_invoice := fun _ _ _ _ => inr invoice;
     query_terms := fun _ => true |}.

(** The search of the mailbox raises. *)
Definition env_no_search : Env :=
  {| today := received;
     raises := fun c => match c with
                        | GmailList => Some "quota exceeded"
                        | _ => None
                        end;
     create_and_send_invoice := fun _ _ _ _ => inr invoice;
     query_terms := fun _ => true |}.

(** A notice of the sender that tells of no amount. *)
Definition notice (n : nat) : Message :=
  mkMessage ("notice-" ++ Text.show_Z (Z.of_nat n))
    "Interac e-Transfer: Jane Roe received your transfer" "" received [].

(** Twenty notices ahead of the notification of the payment. *)
Definition crowded : World :=
  mkWorld (mkDatabase [john] [])
    (map notice (seq 1 20) ++ [message "msg-1" subject]).

(** A notice and the notification of the payment in one poll. *)
Definition mixed : World :=
  mkWorld (mkDatabase [john] []) [notice 1; message "msg-1" subject].

(** A sender who is no tenant. *)
Definition stranger : ParsedInteracEmail :=
  {| email_id := "msg-1";
     sender_name := "Jane Roe";
     amount := Float.of_decimal "1350.00";
     payment_date := Dates.mkDate 2024 11 1;
     message_line := None;
     raw_subject := subject |}.

(** A tenant with a rent of 2500.00 and no parking, and a notification
    of one cent more from her. *)
Definition mary : Tenant :=
  {| tenant_id := "tenant-2";
     tenant_name := "Mary Major";
     tenant_email := "mary@example.com";
     monthly_rent := Float.of_decimal "2500.00";
     parking_fee := None;
     next_due_month := Some "2024-11";
     last_invoice_no := Some 1;
     invoice_ninja_client_id := None |}.

Definition one_cent_over : string :=
  "Interac e-Transfer: You've received $2,500.01 from Mary Major".

Definition mary_world : World :=
  mkWorld (mkDatabase [john; mary] []) [message "msg-3" one_cent_over].

(** The data is left as it is. *)
Definition as_is (data : string) : string := data.

(** A message in two renderings, the plain one first. *)
Definition alternative : Mime.Payload :=
  Mime.mkPayload "multipart/alternative" (Some None)
    (Some [Mime.leaf "text/plain" "plain"; Mime.leaf "text/html" "html"]).

(** A container whose only part is a text without data. *)
Definition hollow : Mime.Payload :=
  Mime.mkPayload "multipart/related" (Some None)
    (Some [Mime.mkPayload "text/plain" (Some None) None]).

End Cases.

(** * Properties *)

(** ** The workflow for one payment *)

Section Workflow.

Import Eff Supabase Gmail Processor.

Variable env : Env.

Lemma call_ok {S} (c : Call) (s : S) :
  raises env c = None -> call env c s = (inr tt, s).
Proof. intros H. unfold call. rewrite H. reflexivity. Qed.

(** The two queries read and never write. *)
Lemma check_duplicate_payment_reads (email : string) (w : World) :
  snd (check_duplicate_payment env email w) = w.
Proof.
  unfold check_duplicate_payment, bind, call.
  destruct (raises env _); reflexivity.
Qed.

Lemma get_tenant_by_name_reads (name : string) (w : World) :
  snd (get_tenant_by_name env name w) = w.
Proof.
  unfold get_tenant_by_name, bind, call.
  destruct (raises env _); [reflexivity|]. simpl.
  unfold get, ret, raise.
  destruct (existsb _ (tenants (db w))); reflexivity.
Qed.

Lemma same_email_stored (email : string) (rows : list Payment) :
  (exists p, In p rows /\ pay_email_id p = Some email) <->
  filter (same_email email) rows <> [].
Proof.
  split.
  - intros [p [Hin Hp]] Hnil.
    assert (Hf : In p (filter (same_email email) rows)).
    { apply filter_In. split; [exact Hin|].
      unfold same_email. rewrite Hp. apply String.eqb_refl. }
    rewrite Hnil in Hf. exact Hf.
  - intros Hne. destruct (filter (same_email email) rows) as [|p l] eqn:Hf;
      [congruence|].
    assert (Hin : In p (filter (same_email email) rows))
      by (rewrite Hf; left; reflexivity).
    apply filter_In in Hin. destruct Hin as [Hin Hp].
    exists p. split; [exact Hin|].
    unfold same_email in Hp. destruct (pay_email_id p) as [e|];
      [|discriminate].
    apply String.eqb_eq in Hp. congruence.
Qed.

(** The duplicate check answers [True] exactly when a payment row with
    this [email_id] is stored. *)
Lemma check_duplicate_payment_stored (email : string) (w : World) :
  raises env (DbCheckDuplicate email) = None ->
  (exists p, In p (payments (db w)) /\ pay_email_id p = Some email) ->
  check_duplicate_payment env email w = (inr true, w).
Proof.
  intros Hcall Hst. apply same_email_stored in Hst.
  unfold check_duplicate_payment, bind. rewrite (call_ok _ _ Hcall).
  unfold get, ret.
  destruct (filter (same_email email) (payments (db w))); [congruence|].
  reflexivity.
Qed.

Lemma check_duplicate_payment_fresh (email : string) (w : World) :
  raises env (DbCheckDuplicate email) = None ->
  (forall p, In p (payments (db w)) -> pay_email_id p <> Some email) ->
  check_duplicate_payment env email w = (inr false, w).
Proof.
  intros Hcall Hfresh.
  unfold check_duplicate_payment, bind. rewrite (call_ok _ _ Hcall).
  unfold get, ret.
  destruct (filter (same_email email) (payments (db w))) as [|p l] eqn:Hf;
    [reflexivity|].
  exfalso.
  assert (Hne : filter (same_email email) (payments (db w)) <> [])
    by (rewrite Hf; discriminate).
  apply same_email_stored in Hne. destruct Hne as [q [Hin Hq]].
  exact (Hfresh q Hin Hq).
Qed.

(** A duplicate is skipped and nothing is written. *)
Lemma process_duplicate (payment : ParsedInteracEmail) (w : World) :
  check_duplicate_payment env (email_id payment) w = (inr true, w) ->
  process_single_payment env payment w
  = (inr (skipped_result "duplicate" (email_id payment)), w).
Proof.
  intros Hdup. unfold process_single_payment, bind. rewrite Hdup.
  reflexivity.
Qed.



Lemma process_invoicing_raises (payment : ParsedInteracEmail)
    (tenant : Tenant) (period msg : string) (w : World) :
  check_duplicate_payment env (email_id payment) w = (inr false, w) ->
  get_tenant_by_name env (sender_name payment) w = (inr (Some tenant), w) ->
  amount_mismatch (amount payment) tenant = false ->
  determine_period payment tenant = inr period ->
  create_and_send_invoice env tenant (amount payment) period
    (payment_date payment) = inl msg ->
  process_single_payment env payment w = (inl (OtherException msg), w).
Proof.
  intros Hdup Hfind Hok Hperiod Hninja.
  unfold process_single_payment, bind.
  rewrite Hdup, Hfind, Hok. unfold lift. rewrite Hperiod.
  unfold invoice_and_send. rewrite Hninja.
  reflexivity.
Qed.

(** *** One turn of the loop *)

Lemma for_payments_cons (payment : ParsedInteracEmail)
    (rest : list ParsedInteracEmail) (st : Results * World) :
  for_payments env (payment :: rest) st
  = match turn env payment st with
    | (inr _, st') => for_payments env rest st'
    | (inl e, st') => (inl e, st')
    end.
Proof. reflexivity. Qed.

Lemma turn_returns (payment : ParsedInteracEmail) (r : ProcessResult)
    (res : Results) (w w' : World) :
  process_single_payment env payment w = (inr r, w') ->
  raises env (GmailModify (email_id payment)) = None ->
  turn env payment (res, w)
  = (inr tt, (add_processed r res, labelled (email_id payment) w')).
Proof.
  intros Hp Hmark.
  unfold turn, try_except, try_payment, bind, on_snd, on_fst. simpl.
  rewrite Hp. simpl. unfold mark_as_processed, bind.
  rewrite (call_ok _ _ Hmark). reflexivity.
Qed.

Lemma turn_validation_error (payment : ParsedInteracEmail) (msg : string)
    (res : Results) (w w' : World) :
  process_single_payment env payment w = (inl (ValidationError msg), w') ->
  raises env (GmailModify (email_id payment)) = None ->
  turn env payment (res, w)
  = (inr tt,
     (add_error (validation_error (email_id payment) (sender_name payment)
                   (amount payment) msg) res,
      labelled (email_id payment) w')).
Proof.
  intros Hp Hmark.
  unfold turn, try_except, try_payment, bind, on_snd. simpl.
  rewrite Hp. simpl. unfold bind, on_fst, on_snd. simpl.
  unfold mark_as_processed, bind. rewrite (call_ok _ _ Hmark). reflexivity.
Qed.

Lemma turn_other_exception (payment : ParsedInteracEmail) (msg : string)
    (res : Results) (w w' : World) :
  process_single_payment env payment w = (inl (OtherException msg), w') ->
  turn env payment (res, w)
  = (inr tt,
     (add_error (unexpected_error (email_id payment) (sender_name payment)
                   ("Unexpected error: " ++ msg)) res,
      w')).
Proof.
  intros Hp.
  unfold turn, try_except, try_payment, bind, on_snd. simpl.
  rewrite Hp. reflexivity.
Qed.

(** When the labelling raises inside the handler of a validation
    failure, the exception leaves the loop: the payments that follow are
    not attempted in this batch. *)
Lemma labelling_failure_ends_batch (payment : ParsedInteracEmail)
    (msg oops : string) (res : Results) (w w' : World)
    (rest : list ParsedInteracEmail) :
  process_single_payment env payment w = (inl (ValidationError msg), w') ->
  raises env (GmailModify (email_id payment)) = Some oops ->
  for_payments env (payment :: rest) (res, w)
  = (inl (OtherException oops),
     (add_error (validation_error (email_id payment) (sender_name payment)
                   (amount payment) msg) res,
      w')).
Proof.
  intros Hp Hmark. rewrite for_payments_cons.
  unfold turn, try_except, try_payment, bind, on_snd. simpl.
  rewrite Hp. simpl. unfold bind, on_fst, on_snd. simpl.
  unfold mark_as_processed, bind, call. rewrite Hmark. reflexivity.
Qed.

End Workflow.

(** ** The mailbox during a batch *)

Section Mailbox.

Import Eff Supabase Gmail Processor.

Variable env : Env.

Lemma create_payment_inbox tenant amount date period email invoice notes w :
  inbox (snd (create_payment env tenant amount date period email invoice
                notes w)) = inbox w.
Proof.
  unfold create_payment, bind, call.
  destruct (raises env _); reflexivity.
Qed.

Lemma update_tenant_after_payment_inbox tenant n due client w :
  inbox (snd (update_tenant_after_payment env tenant n due client w))
  = inbox w.
Proof.
  unfold update_tenant_after_payment, bind, call.
  destruct (raises env _); reflexivity.
Qed.

Lemma mark_payment_emailed_inbox payment w :
  inbox (snd (mark_payment_emailed env payment w)) = inbox w.
Proof.
  unfold mark_payment_emailed, bind, call.
  destruct (raises env _); reflexivity.
Qed.

Lemma bump_month_state {S} (ym : option string) (s : S) :
  snd (bump_month env ym s) = s.
Proof.
  assert (Htoday : snd (next_month_from_today env s) = s).
  { unfold next_month_from_today.
    destruct (plus_one_month (today env)); reflexivity. }
  unfold bump_month. destruct ym as [ym|]; [|exact Htoday].
  destruct (Text.nonempty ym); [|exact Htoday].
  destruct (first_of_month ym) as [[|msg]|current];
    [exact Htoday | reflexivity |].
  destruct (plus_one_month current); [reflexivity|exact Htoday].
Qed.

(** Processing a payment writes to the database only. *)
Lemma process_single_payment_inbox (payment : ParsedInteracEmail) (w : World) :
  inbox (snd (process_single_payment env payment w)) = inbox w.
Proof.
  unfold process_single_payment, bind.
  pose proof (check_duplicate_payment_reads env (email_id payment) w) as H1.
  destruct (check_duplicate_payment env (email_id payment) w)
    as [[e|dup] w1]; simpl in H1; subst w1; [reflexivity|].
  destruct dup; [reflexivity|].
  pose proof (get_tenant_by_name_reads env (sender_name payment) w) as H2.
  destruct (get_tenant_by_name env (sender_name payment) w)
    as [[e|found] w2]; simpl in H2; subst w2; [reflexivity|].
  destruct found as [tenant|]; [|reflexivity].
  destruct (amount_mismatch (amount payment) tenant); [reflexivity|].
  unfold lift.
  destruct (determine_period payment tenant) as [e|period]; [reflexivity|].
  unfold invoice_and_send.
  destruct (create_and_send_invoice env tenant _ _ _) as [msg|inv];
    [reflexivity|].
  simpl.
  pose proof (bump_month_state (next_due_month tenant) w) as H3.
  destruct (bump_month env (next_due_month tenant) w) as [[e|due] w3];
    simpl in H3; subst w3; [reflexivity|].
  match goal with
  | |- context [create_payment env ?a ?b ?c ?d ?e ?f ?g w] =>
      pose proof (create_payment_inbox a b c d e f g w) as H4;
      destruct (create_payment env a b c d e f g w) as [[e4|row] w4]
  end; simpl in H4; [simpl; exact H4|].
  match goal with
  | |- context [update_tenant_after_payment env ?a ?b ?c ?d w4] =>
      pose proof (update_tenant_after_payment_inbox a b c d w4) as H5;
      destruct (update_tenant_after_payment env a b c d w4) as [[e5|u] w5]
  end; simpl in H5; [simpl; congruence|].
  pose proof (mark_payment_emailed_inbox (pay_id row) w5) as H6.
  destruct (mark_payment_emailed env (pay_id row) w5) as [[e6|u6] w6];
    simpl in H6; simpl; congruence.
Qed.

Lemma mark_as_processed_inbox (id : string) (w : World) :
  inbox (snd (mark_as_processed env id w)) = inbox w
  \/ inbox (snd (mark_as_processed env id w))
     = map (label_message id) (inbox w).
Proof.
  unfold mark_as_processed, bind, call.
  destruct (raises env _); [left|right]; reflexivity.
Qed.

Lemma has_label_add_label (l : string) (m : Message) :
  has_label l (add_label l m) = true.
Proof.
  unfold add_label. destruct (has_label l m) eqn:Hl; [exact Hl|].
  unfold has_label. cbn [msg_labels]. rewrite existsb_app.
  apply orb_true_iff. right. cbn [existsb].
  rewrite String.eqb_refl. reflexivity.
Qed.

Lemma msg_id_add_label (l : string) (m : Message) :
  msg_id (add_label l m) = msg_id m.
Proof. unfold add_label. destruct (has_label l m); reflexivity. Qed.

(** Labelling twice is labelling once. *)
Lemma label_message_idem (id : string) (m : Message) :
  label_message id (label_message id m) = label_message id m.
Proof.
  unfold label_message.
  destruct (String.eqb (msg_id m) id) eqn:Hid.
  - rewrite msg_id_add_label, Hid.
    unfold add_label at 1. rewrite has_label_add_label. reflexivity.
  - rewrite Hid. reflexivity.
Qed.

(** One turn leaves the mailbox as it is or labels the own message. *)
Lemma turn_inbox (payment : ParsedInteracEmail) (res : Results) (w : World) :
  inbox (snd (snd (turn env payment (res, w)))) = inbox w
  \/ inbox (snd (snd (turn env payment (res, w))))
     = map (label_message (email_id payment)) (inbox w).
Proof.
  unfold turn, try_except, try_payment, bind, on_snd, on_fst. simpl.
  pose proof (process_single_payment_inbox payment w) as Hp.
  destruct (process_single_payment env payment w) as [[e|r] w1];
    simpl in Hp; simpl.
  - destruct e as [msg|msg]; simpl.
    + unfold bind, on_fst, on_snd. simpl.
      pose proof (mark_as_processed_inbox (email_id payment) w1) as Hm.
      destruct (mark_as_processed env (email_id payment) w1) as [x w2].
      simpl in *. rewrite Hp in Hm. exact Hm.
    + left. exact Hp.
  - pose proof (mark_as_processed_inbox (email_id payment) w1) as Hm.
    destruct (mark_as_processed env (email_id payment) w1) as [[e|u] w2];
        simpl in *; rewrite Hp in Hm; [|exact Hm].
    destruct e as [msg|msg]; simpl; [|exact Hm].
    unfold bind, on_fst, on_snd. simpl.
    pose proof (mark_as_processed_inbox (email_id payment) w2) as Hm2.
    destruct (mark_as_processed env (email_id payment) w2) as [x w3].
    simpl in *.
    destruct Hm as [Hm|Hm], Hm2 as [Hm2|Hm2]; rewrite Hm2, ?Hm; auto.
    right. rewrite map_map. apply map_ext. intros m.
    apply label_message_idem.
Qed.

Lemma label_message_other (id : string) (m : Message) :
  msg_id m <> id -> label_message id m = m.
Proof.
  intros Hne. unfold label_message.
  destruct (String.eqb (msg_id m) id) eqn:Hid; [|reflexivity].
  apply String.eqb_eq in Hid. contradiction.
Qed.

(** A message stays in the mailbox, labels and all, through a batch in
    which no payment carries its identifier. *)
Lemma for_payments_keeps_message (m : Message)
    (payments : list ParsedInteracEmail) :
  ~ In (msg_id m) (map email_id payments) ->
  forall res w,
    In m (inbox w) ->
    In m (inbox (snd (snd (for_payments env payments (res, w))))).
Proof.
  induction payments as [|payment rest IH]; intros Hnot res w Hin.
  - exact Hin.
  - rewrite for_payments_cons.
    assert (Hstep : In m (inbox (snd (snd (turn env payment (res, w)))))).
    { destruct (turn_inbox payment res w) as [H|H]; rewrite H.
      - exact Hin.
      - apply in_map_iff. exists m. split; [|exact Hin].
        apply label_message_other. intros Heq. apply Hnot. left.
        symmetry. exact Heq. }
    destruct (turn env payment (res, w)) as [[e|u] [res1 w1]]; simpl in *.
    + exact Hstep.
    + apply IH; [|exact Hstep]. intros Hrest. apply Hnot. right. exact Hrest.
Qed.

End Mailbox.

(** ** The size of a batch *)

Section Batch.

Import Eff Gmail.

Variable env : Env.

Lemma fetch_each_length (refs : list string) :
  forall w ps w',
    fetch_each env refs w = (inr ps, w') ->
    (List.length ps <= List.length refs)%nat.
Proof.
  induction refs as [|id refs IH]; intros w ps w' H; simpl in H.
  - inversion H; subst. simpl. lia.
  - unfold bind in H.
    destruct (messages_get env id w) as [[e|message] w1]; [discriminate|].
    destruct (fetch_each env refs w1) as [[e|rest] w2] eqn:Hrest;
      [discriminate|].
    apply IH in Hrest.
    unfold ret in H. inversion H; subst.
    destruct (Parser.parse_interac_email _ _ _ _); simpl; lia.
Qed.

Lemma messages_list_length (n : nat) :
  forall w ids w',
    messages_list env n w = (inr ids, w') -> (List.length ids <= n)%nat.
Proof.
  intros w ids w' H. unfold messages_list, bind, call in H.
  destruct (raises env GmailList); simpl in H; [discriminate|].
  inversion H; subst.
  rewrite length_map. apply firstn_le_length.
Qed.

Lemma messages_list_reads (n : nat) (w : World) :
  snd (messages_list env n w) = w.
Proof.
  unfold messages_list, bind, call.
  destruct (raises env GmailList); reflexivity.
Qed.

Lemma messages_get_reads (id : string) (w : World) :
  snd (messages_get env id w) = w.
Proof.
  unfold messages_get, bind, call.
  destruct (raises env (GmailGet id)); [reflexivity|]. simpl.
  destruct (find _ (inbox w)); reflexivity.
Qed.

Lemma parse_interac_email_id (id subject body : string) (date : Dates.Date)
    (payment : ParsedInteracEmail) :
  Parser.parse_interac_email id subject body date = Some payment ->
  email_id payment = id.
Proof.
  unfold Parser.parse_interac_email.
  destruct (Parser.extract_amount subject); [|discriminate].
  destruct (Parser.extract_sender subject); [|discriminate].
  intros H. inversion H. reflexivity.
Qed.

(** Fetching reads the mailbox, and every payment fetched carries the
    identifier of a listed message. *)
Lemma fetch_each_ids (refs : list string) :
  forall w ps w',
    fetch_each env refs w = (inr ps, w') ->
    w' = w /\ forall p, In p ps -> In (email_id p) refs.
Proof.
  induction refs as [|id refs IH]; intros w ps w' H; simpl in H.
  - inversion H; subst. split; [reflexivity|]. intros p [].
  - unfold bind in H.
    pose proof (messages_get_reads id w) as Hget.
    destruct (messages_get env id w) as [[e|message] w1]; [discriminate|].
    simpl in Hget. subst w1.
    destruct (fetch_each env refs w) as [[e|rest] w2] eqn:Hrest;
      [discriminate|].
    apply IH in Hrest. destruct Hrest as [Hw Hids]. subst w2.
    unfold ret in H. inversion H; subst. split; [reflexivity|].
    intros p Hin.
    destruct (Parser.parse_interac_email id _ _ _) as [q|] eqn:Hparse.
    + destruct Hin as [Hq|Hin].
      * subst q. left. symmetry.
        apply (parse_interac_email_id _ _ _ _ _ Hparse).
      * right. apply Hids, Hin.
    + right. apply Hids, Hin.
Qed.

(** The identifiers that the search of one poll lists. *)
Lemma fetch_new_payments_ids (w : World) (ps : list ParsedInteracEmail)
    (w' : World) :
  fetch_new_payments env w = (inr ps, w') ->
  w' = w
  /\ forall p, In p ps ->
       In (email_id p)
          (map msg_id (firstn 20 (filter (interac_query env) (inbox w)))).
Proof.
  intros H. unfold fetch_new_payments, bind in H.
  pose proof (messages_list_reads 20 w) as Hreads.
  destruct (messages_list env 20 w) as [[e|ids] w1] eqn:Hlist;
    [discriminate|].
  simpl in Hreads. subst w1.
  apply fetch_each_ids in H. destruct H as [Hw Hids].
  split; [exact Hw|]. intros p Hin. specialize (Hids p Hin).
  unfold messages_list, bind, call in Hlist.
  destruct (raises env GmailList); simpl in Hlist; [discriminate|].
  inversion Hlist; subst. exact Hids.
Qed.

(** C10. One poll cycle hands the processor at most 20 parsed payments:
    the search is issued with [maxResults=20], and the list that
    [fetch_new_payments] returns has one element for a message at most;
    a message that the search did not list is in the mailbox after the
    cycle as it was before, for a later poll. *)
Theorem fetch_new_payments_at_most_20 :
  forall w : World,
    (forall ps w',
       fetch_new_payments env w = (inr ps, w') ->
       (List.length ps <= 20)%nat)
    /\ (forall m,
          In m (inbox w) ->
          ~ In (msg_id m)
               (map msg_id
                  (firstn 20 (filter (interac_query env) (inbox w)))) ->
          In m (inbox (snd (Processor.process_new_payments env w)))).
Proof.
  intros w. split.
  - intros ps w' H. unfold fetch_new_payments, bind in H.
    destruct (messages_list env 20 w) as [[e|ids] w1] eqn:Hlist;
      [discriminate|].
    apply messages_list_length in Hlist.
    apply fetch_each_length in H. lia.
  - intros m Hin Hnot.
    unfold Processor.process_new_payments, try_except, bind, on_snd.
    simpl.
    destruct (fetch_new_payments env w) as [[e|ps] w1] eqn:Hfetch.
    + simpl. pose proof (f_equal snd Hfetch) as Hw. simpl in Hw.
      unfold fetch_new_payments, bind in Hw.
      pose proof (messages_list_reads 20 w) as Hreads.
      destruct (messages_list env 20 w) as [[e1|ids] w2]; simpl in *.
      * subst. exact Hin.
      * subst w2. clear Hfetch.
        assert (Hsame : forall refs v, snd (fetch_each env refs v) = v).
        { induction refs as [|id refs IH]; intros v; [reflexivity|].
          simpl. unfold bind.
          pose proof (messages_get_reads id v) as Hg.
          destruct (messages_get env id v) as [[e2|message] v1];
            simpl in *; subst; [reflexivity|].
          specialize (IH v).
          destruct (fetch_each env refs v) as [[e3|rest] v2];
            simpl in *; subst; reflexivity. }
        rewrite Hsame in Hw. subst w1. exact Hin.
    + apply fetch_new_payments_ids in Hfetch.
      destruct Hfetch as [Hw Hids]. subst w1.
      assert (Hkeep : In m (inbox (snd (snd
                 (Processor.for_payments env ps
                    (Processor.no_results, w)))))).
      { apply for_payments_keeps_message; [|exact Hin].
        intros Hmem. apply in_map_iff in Hmem.
        destruct Hmem as [p [Hp Hpin]].
        apply Hnot. rewrite <- Hp. apply Hids, Hpin. }
      destruct (Processor.for_payments env ps (Processor.no_results, w))
        as [[e|u] [res2 w2]]; simpl in *; exact Hkeep.
Qed.

End Batch.

(** The bound at work on the scenario's mailbox. *)
Lemma fetch_new_payments_at_most_20_witness :
  exists ps w',
    Gmail.fetch_new_payments Scenario.env_ok Scenario.world = (inr ps, w')
    /\ (List.length ps <= 20)%nat.
Proof.
  eexists. eexists. split.
  - vm_compute. reflexivity.
  - destruct (fetch_new_payments_at_most_20 Scenario.env_ok Scenario.world)
      as [Hbound _].
    apply (Hbound _ _ eq_refl).
Defined.

(** ** Outcomes of the workflow *)

Section Outcomes.

Import Eff Supabase Gmail Processor.

Variable env : Env.

(** What the batch filed under [errors] stays there to its end. *)
Lemma turn_keeps_errors (payment : ParsedInteracEmail) (res : Results)
    (w : World) (entry : ErrorInfo) :
  In entry (errors res) ->
  In entry (errors (fst (snd (turn env payment (res, w))))).
Proof.
  intros Hin.
  unfold turn, try_except, try_payment, bind, on_snd, on_fst. simpl.
  destruct (process_single_payment env payment w) as [[e|r] w1]; simpl.
  - destruct e as [msg|msg]; simpl.
    + unfold bind, on_fst, on_snd. simpl.
      destruct (mark_as_processed env (email_id payment) w1) as [x w2].
      simpl. apply in_or_app. left. exact Hin.
    + apply in_or_app. left. exact Hin.
  - destruct (mark_as_processed env (email_id payment) w1) as [[e|u] w2];
      simpl; [|exact Hin].
    destruct e as [msg|msg]; simpl.
    + unfold bind, on_fst, on_snd. simpl.
      destruct (mark_as_processed env (email_id payment) w2) as [x w3].
      simpl. apply in_or_app. left. exact Hin.
    + apply in_or_app. left. exact Hin.
Qed.

Lemma for_payments_keeps_errors (payments : list ParsedInteracEmail)
    (entry : ErrorInfo) :
  forall res w,
    In entry (errors res) ->
    In entry (errors (fst (snd (for_payments env payments (res, w))))).
Proof.
  induction payments as [|payment rest IH]; intros res w Hin; [exact Hin|].
  rewrite for_payments_cons.
  pose proof (turn_keeps_errors payment res w entry Hin) as Hs.
  destruct (turn env payment (res, w)) as [[e|u] [res1 w1]]; simpl in *.
  - exact Hs.
  - apply IH. exact Hs.
Qed.

(** C2. When the invoicing service raises for a payment that passed the
    duplicate check, the tenant lookup and the amount validation, the
    outcome is Fatal; processing leaves the world as it was, so no payment
    row is inserted, the tenant keeps [last_invoice_no] and
    [next_due_month], and the message gets no label; the turn of the loop
    appends to the errors of the batch one entry of an unexpected error
    for the item, with its identifier, its sender and the text of the
    exception, and leaves the processed and the skipped entries as they
    were; the loop goes on, and the entry is among the errors at the end
    of the batch; and at the end of a batch with no other payment of this
    identifier the message is in the mailbox as before, for the next
    poll to find. *)
Theorem invoicing_failure_is_fatal :
  forall (payment : ParsedInteracEmail) (tenant : Tenant)
         (period msg : string) (w : World) (res : Results)
         (rest : list ParsedInteracEmail),
    check_duplicate_payment env (email_id payment) w = (inr false, w) ->
    get_tenant_by_name env (sender_name payment) w = (inr (Some tenant), w) ->
    amount_mismatch (amount payment) tenant = false ->
    determine_period payment tenant = inr period ->
    create_and_send_invoice env tenant (amount payment) period
      (payment_date payment) = inl msg ->
    let entry :=
      unexpected_error (email_id payment) (sender_name payment)
        ("Unexpected error: " ++ msg) in
    let filed :=
      {| processed := processed res;
         errors := (errors res ++ [entry])%list;
         skipped := skipped res |} in
    outcome_of (fst (process_single_payment env payment w)) = Fatal msg
    /\ snd (process_single_payment env payment w) = w
    /\ turn env payment (res, w) = (inr tt, (filed, w))
    /\ for_payments env (payment :: rest) (res, w)
       = for_payments env rest (filed, w)
    /\ In entry
         (errors (fst (snd (for_payments env (payment :: rest) (res, w)))))
    /\ (forall m, In m (inbox w) -> msg_id m = email_id payment ->
          ~ In (email_id payment) (map email_id rest) ->
          In m (inbox (snd (snd (for_payments env (payment :: rest)
                                   (res, w)))))).
Proof.
  intros payment tenant period msg w res rest Hdup Hfind Hok Hperiod Hninja
         entry filed.
  pose proof (process_invoicing_raises env payment tenant period msg w
                Hdup Hfind Hok Hperiod Hninja) as Hp.
  assert (Hturn : turn env payment (res, w) = (inr tt, (filed, w)))
    by (rewrite (turn_other_exception env payment msg res w w Hp);
        reflexivity).
  rewrite Hp. split; [reflexivity|]. split; [reflexivity|].
  split; [exact Hturn|].
  assert (Hfor : for_payments env (payment :: rest) (res, w)
                 = for_payments env rest (filed, w))
    by (rewrite for_payments_cons, Hturn; reflexivity).
  split; [exact Hfor|]. split.
  - rewrite Hfor. apply for_payments_keeps_errors.
    subst filed. cbn [errors]. apply in_or_app. right. left. reflexivity.
  - intros m Hin Hid Hrest. rewrite Hfor.
    apply for_payments_keeps_message; [|exact Hin].
    rewrite Hid. exact Hrest.
Qed.


(** Nothing is ever filed under [skipped]. *)
Lemma turn_skipped (payment : ParsedInteracEmail) (res : Results) (w : World) :
  skipped (fst (snd (turn env payment (res, w)))) = skipped res.
Proof.
  unfold turn, try_except, try_payment, bind, on_snd, on_fst. simpl.
  destruct (process_single_payment env payment w) as [[e|r] w1]; simpl.
  - destruct e as [msg|msg]; simpl; [|reflexivity].
    unfold bind, on_fst, on_snd. simpl.
    destruct (mark_as_processed env (email_id payment) w1) as [x w2].
    reflexivity.
  - destruct (mark_as_processed env (email_id payment) w1) as [[e|u] w2];
      simpl; [|reflexivity].
    destruct e as [msg|msg]; simpl; [|reflexivity].
    unfold bind, on_fst, on_snd. simpl.
    destruct (mark_as_processed env (email_id payment) w2) as [x w3].
    reflexivity.
Qed.

Lemma for_payments_skipped (payments : list ParsedInteracEmail) :
  forall res w,
    skipped (fst (snd (for_payments env payments (res, w)))) = skipped res.
Proof.
  induction payments as [|payment rest IH]; intros res w; [reflexivity|].
  rewrite for_payments_cons.
  pose proof (turn_skipped payment res w) as Hs.
  destruct (turn env payment (res, w)) as [[e|u] [res1 w1]]; simpl in *.
  - exact Hs.
  - rewrite IH. exact Hs.
Qed.

Lemma process_new_payments_skipped (w : World) :
  skipped (fst (process_new_payments env w)) = [].
Proof.
  unfold process_new_payments, try_except, bind, on_snd. simpl.
  destruct (fetch_new_payments env w) as [[e|payments] w1]; simpl;
    [reflexivity|].
  pose proof (for_payments_skipped payments no_results w1) as Hs.
  destruct (for_payments env payments (no_results, w1))
    as [[e|u] [res2 w2]]; simpl in *; exact Hs.
Qed.

(** The part of the duplicate rule that the code keeps: the payment is
    skipped as a duplicate and no row, ledger entry or count changes. *)
Lemma duplicate_is_skipped (payment : ParsedInteracEmail) (w : World) :
  raises env (DbCheckDuplicate (email_id payment)) = None ->
  (exists p, In p (payments (db w))
             /\ pay_email_id p = Some (email_id payment)) ->
  process_single_payment env payment w
  = (inr (skipped_result "duplicate" (email_id payment)), w)
  /\ outcome_of (fst (process_single_payment env payment w))
     = Skipped "duplicate".
Proof.
  intros Hcall Hst.
  pose proof (process_duplicate env payment w
                (check_duplicate_payment_stored env _ w Hcall Hst)) as Hp.
  rewrite Hp. split; reflexivity.
Qed.

(** In the batch a skipped payment is filed under [processed]. *)
Lemma duplicate_is_filed_as_processed (payment : ParsedInteracEmail)
    (w : World) (res : Results) (rest : list ParsedInteracEmail) :
  check_duplicate_payment env (email_id payment) w = (inr true, w) ->
  raises env (GmailModify (email_id payment)) = None ->
  for_payments env (payment :: rest) (res, w)
  = for_payments env rest
      (add_processed (skipped_result "duplicate" (email_id payment)) res,
       labelled (email_id payment) w).
Proof.
  intros Hdup Hmark. rewrite for_payments_cons.
  rewrite (turn_returns env payment _ res w w
             (process_duplicate env payment w Hdup) Hmark).
  reflexivity.
Qed.

End Outcomes.

(** C3, as the code has it. The batch result never lists anything under
    [skipped]; a notification whose payment is already stored comes back
    under [processed], with the status of a skipped duplicate. *)
Theorem duplicate_is_reported_as_processed :
  (forall env w, skipped (fst (Processor.process_new_payments env w)) = [])
  /\ Processor.process_new_payments Scenario.env_ok Scenario.world_paid
     = ({| processed := [skipped_result "duplicate" "msg-1"];
           errors := [];
           skipped := [] |},
        Gmail.labelled "msg-1" Scenario.world_paid).
Proof.
  split.
  - intros env w. apply process_new_payments_skipped.
  - vm_compute. reflexivity.
Qed.

(** The Fatal path on the scenario, with the invoicing service down. *)
Lemma invoicing_failure_is_fatal_witness :
  outcome_of (fst (Processor.process_single_payment Scenario.env_no_invoicing
                     Scenario.payment Scenario.world))
  = Fatal "503 Service Unavailable"
  /\ snd (Processor.process_single_payment Scenario.env_no_invoicing
            Scenario.payment Scenario.world) = Scenario.world
  /\ In (unexpected_error "msg-1" "John Doe"
           "Unexpected error: 503 Service Unavailable")
        (errors (fst (snd (Processor.for_payments Scenario.env_no_invoicing
                             [Scenario.payment]
                             (Processor.no_results, Scenario.world))))).
Proof.
  destruct (invoicing_failure_is_fatal Scenario.env_no_invoicing
              Scenario.payment Scenario.john "November"
              "503 Service Unavailable"
              Scenario.world Processor.no_results [])
    as [Hout [Hworld [_ [_ [Hfiled _]]]]];
    [vm_compute; reflexivity | vm_compute; reflexivity
    | vm_compute; reflexivity | vm_compute; reflexivity
    | vm_compute; reflexivity |].
  split; [exact Hout | split; [exact Hworld | exact Hfiled]].
Defined.


(** ** The end-to-end scenario *)

Section EndToEnd.

Import Eff Supabase Gmail Processor.

(** C1. The notification of 1,350.00 dollars from John Doe whose body
    reads "Message: November rent Date: November 1, 2024" once the markup
    is removed, parsed and then processed against the stored tenant John
    Doe (rent 1200.00, parking 150.00, next due "2024-11", last invoice 5)
    with no payment stored for the message, is a Success for the period
    "November", and leaves the tenant with last invoice 6 and next due
    "2024-12". *)
Theorem end_to_end_scenario :
  forall (env : Env) (id body : string) (received : Dates.Date)
         (inv : InvoiceResult) (rows : list Payment) (msgs : list Message)
         (tid temail : string) (tclient : option string),
    Parser.clean_body body = Scenario.body ->
    (forall c, raises env c = None) ->
    (forall t a p d, create_and_send_invoice env t a p d = inr inv) ->
    (forall p, In p rows -> pay_email_id p <> Some id) ->
    let john :=
      {| tenant_id := tid; tenant_name := "John Doe"; tenant_email := temail;
         monthly_rent := Float.of_decimal "1200.00";
         parking_fee := Some (Float.of_decimal "150.00");
         next_due_month := Some "2024-11";
         last_invoice_no := Some 5;
         invoice_ninja_client_id := tclient |} in
    let w := mkWorld (mkDatabase [john] rows) msgs in
    exists payment r w',
      Parser.parse_interac_email id Scenario.subject body received
      = Some payment
      /\ process_single_payment env payment w = (inr r, w')
      /\ (exists number pid,
            outcome_of (inr r)
            = Success "John Doe" (amount payment) "November" number pid)
      /\ map last_invoice_no (tenants (db w')) = [Some 6]
      /\ map next_due_month (tenants (db w')) = [Some "2024-12"].
Proof.
  intros env id body received inv rows msgs tid temail tclient
         Hbody Hcalls Hninja Hfresh john w.
  set (payment :=
         {| email_id := id; sender_name := "John Doe";
            amount := Float.of_decimal "1350.00";
            payment_date := Dates.mkDate 2024 11 1;
            message_line := Some "November rent";
            raw_subject := Scenario.subject |}).
  assert (Hparse : Parser.parse_interac_email id Scenario.subject
                     body received = Some payment).
  { unfold Parser.parse_interac_email. rewrite Hbody.
    vm_compute. reflexivity. }
  assert (Hdup : check_duplicate_payment env id w = (inr false, w))
    by (apply check_duplicate_payment_fresh; [apply Hcalls | exact Hfresh]).
  assert (Hfind : get_tenant_by_name env "John Doe" w
                  = (inr (Some john), w)).
  { unfold get_tenant_by_name, bind. rewrite (call_ok env _ _ (Hcalls _)).
    reflexivity. }
  assert (Hamount : amount_mismatch (amount payment) john = false)
    by (vm_compute; reflexivity).
  assert (Hperiod : determine_period payment john = inr "November")
    by (vm_compute; reflexivity).
  assert (Hbump : forall s : World,
             bump_month env (Some "2024-11") s = (inr "2024-12", s))
    by (intros s; vm_compute; reflexivity).
  exists payment. eexists. eexists.
  split; [exact Hparse|]. split.
  - unfold process_single_payment, bind.
    change (email_id payment) with id.
    change (sender_name payment) with "John Doe".
    rewrite Hdup, Hfind, Hamount. unfold lift at 1. rewrite Hperiod.
    unfold invoice_and_send. rewrite Hninja.
    change (next_due_month john) with (Some "2024-11").
    unfold ret at 1. rewrite Hbump.
    unfold create_payment, bind. rewrite (call_ok env _ _ (Hcalls _)).
    unfold get, modify, ret.
    unfold update_tenant_after_payment, bind.
    rewrite (call_ok env _ _ (Hcalls _)). unfold modify.
    unfold mark_payment_emailed, bind.
    rewrite (call_ok env _ _ (Hcalls _)). unfold modify.
    reflexivity.
  - split; [eexists; eexists; reflexivity|].
    cbn [db tenants with_db map]. subst w john. cbn [db tenants map].
    unfold update_tenant. cbn [tenant_id]. rewrite String.eqb_refl.
    split; reflexivity.
Qed.

End EndToEnd.

(** The scenario with the data of [Scenario] and a body in markup. *)
Lemma end_to_end_scenario_witness :
  exists payment r w',
    Parser.parse_interac_email "msg-1" Scenario.subject Scenario.html_body
      Scenario.received = Some payment
    /\ Processor.process_single_payment Scenario.env_ok payment
         Scenario.world = (inr r, w')
    /\ (exists number pid,
          outcome_of (inr r)
          = Success "John Doe" (amount payment) "November" number pid)
    /\ map last_invoice_no (tenants (db w')) = [Some 6]
    /\ map next_due_month (tenants (db w')) = [Some "2024-12"].
Proof.
  apply (end_to_end_scenario Scenario.env_ok "msg-1" Scenario.html_body
           Scenario.received
           Scenario.invoice [] [Scenario.message "msg-1" Scenario.subject]
           "tenant-1" "john@example.com" None).
  - vm_compute. reflexivity.
  - intros c. reflexivity.
  - intros t a p d. reflexivity.
  - intros p Hin. destruct Hin.
Defined.

(** ** Binary64 arithmetic: signs, NaN and order *)

Section Rounding.

Import Float.

Variables prec emax : Z.

Lemma shr_1_nonneg (mrs : shr_record) :
  0 <= shr_m mrs -> 0 <= shr_m (shr_1 mrs).
Proof.
  destruct mrs as [m r s]. simpl. intros H.
  destruct m as [|p|p]; [simpl; lia| |lia].
  destruct p; simpl; lia.
Qed.

Lemma iter_shr_1_nonneg (p : positive) :
  forall mrs, 0 <= shr_m mrs -> 0 <= shr_m (iter_pos shr_1 p mrs).
Proof.
  induction p as [p IH|p IH|]; intros mrs H; simpl.
  - apply IH, IH, shr_1_nonneg, H.
  - apply IH, IH, H.
  - apply shr_1_nonneg, H.
Qed.

Lemma shr_fexp_nonneg (m e : Z) (l : location) :
  0 <= m -> 0 <= shr_m (fst (shr_fexp prec emax m e l)).
Proof.
  intros H. unfold shr_fexp, shr.
  assert (H0 : 0 <= shr_m (shr_record_of_loc m l))
    by (destruct l as [|[]]; exact H).
  destruct (fexp prec emax (Zdigits2 m + e) - e); simpl;
    [exact H0 | apply iter_shr_1_nonneg; exact H0 | exact H0].
Qed.

Lemma round_nearest_even_nonneg (m : Z) (l : location) :
  0 <= m -> 0 <= round_nearest_even m l.
Proof.
  intros H. destruct l as [|[]]; simpl; try lia.
  destruct (Z.even m); lia.
Qed.

(** Rounding a non-negative mantissa gives a zero, a finite number or an
    infinity of the sign it was given, never NaN. *)
Lemma binary_round_aux_sign (s : bool) (m e : Z) (l : location) :
  0 <= m -> has_sign s (binary_round_aux prec emax s m e l).
Proof.
  intros H. unfold binary_round_aux.
  pose proof (shr_fexp_nonneg m e l H) as H1.
  destruct (shr_fexp prec emax m e l) as [mrs1 e1]. simpl in H1.
  pose proof (shr_fexp_nonneg
                (round_nearest_even (shr_m mrs1) (loc_of_shr_record mrs1))
                e1 loc_Exact
                (round_nearest_even_nonneg _ _ H1)) as H2.
  destruct (shr_fexp prec emax _ e1 loc_Exact) as [mrs2 e2]. simpl in H2.
  destruct (shr_m mrs2) as [|p|p]; simpl; [reflexivity| |lia].
  destruct (e2 <=? emax - prec); reflexivity.
Qed.

Lemma binary_round_sign (s : bool) (m : positive) (e : Z) :
  has_sign s (binary_round prec emax s m e).
Proof.
  unfold binary_round.
  destruct (shl_align m e _) as [mz ez].
  apply binary_round_aux_sign. lia.
Qed.

(** The magnitude of a rounded number does not depend on its sign. *)
Lemma binary_round_abs (s s' : bool) (m : positive) (e : Z) :
  SFabs (binary_round prec emax s m e) = SFabs (binary_round prec emax s' m e).
Proof.
  unfold binary_round. destruct (shl_align m e _) as [mz ez].
  unfold binary_round_aux.
  destruct (shr_fexp prec emax (Z.pos mz) ez loc_Exact) as [mrs1 e1].
  destruct (shr_fexp prec emax _ e1 loc_Exact) as [mrs2 e2].
  destruct (shr_m mrs2); simpl; try reflexivity.
  destruct (e2 <=? emax - prec); reflexivity.
Qed.

Lemma binary_normalize_abs_opp (m e : Z) :
  SFabs (binary_normalize prec emax (- m) e false)
  = SFabs (binary_normalize prec emax m e false).
Proof.
  destruct m as [|p|p]; simpl; [reflexivity| |]; apply binary_round_abs.
Qed.

Lemma has_sign_not_nan (s : bool) (x : spec_float) :
  has_sign s x -> not_nan x.
Proof. destruct x; simpl; auto. Qed.

Lemma binary_normalize_not_nan (m e : Z) :
  not_nan (binary_normalize prec emax m e false).
Proof.
  destruct m as [|p|p]; simpl; [exact I| |];
    eapply has_sign_not_nan, binary_round_sign.
Qed.

Lemma SFadd_not_nan (x y : spec_float) :
  is_finite x = true -> is_finite y = true ->
  not_nan (SFadd prec emax x y).
Proof.
  destruct x as [sx|sx| |sx mx ex], y as [sy|sy| |sy my ey];
    simpl; try discriminate; try tauto; intros _ _.
  - destruct sx, sy; exact I.
  - apply binary_normalize_not_nan.
Qed.

Lemma SFsub_not_nan (x y : spec_float) :
  is_finite x = true -> not_nan y -> not_nan (SFsub prec emax x y).
Proof.
  destruct x as [sx|sx| |sx mx ex], y as [sy|sy| |sy my ey];
    simpl; try discriminate; try tauto; intros _ _.
  - destruct sx, sy; exact I.
  - apply binary_normalize_not_nan.
Qed.

(** [|x - y| = |y - x|], also for zeros, infinities and NaN. *)
Lemma SFsub_abs_sym (x y : spec_float) :
  SFabs (SFsub prec emax x y) = SFabs (SFsub prec emax y x).
Proof.
  destruct x as [sx|sx| |sx mx ex], y as [sy|sy| |sy my ey];
    try reflexivity;
    try (destruct sx, sy; reflexivity).
  unfold SFsub. rewrite (Z.min_comm ey ex).
  set (a := cond_Zopp sx (Z.pos (fst (shl_align mx ex (Z.min ex ey))))).
  set (b := cond_Zopp sy (Z.pos (fst (shl_align my ey (Z.min ex ey))))).
  replace (b - a) with (- (a - b)) by lia.
  symmetry. apply binary_normalize_abs_opp.
Qed.

End Rounding.

(** ** Amount validation *)

Section Amounts.

Import Processor.

Lemma tolerance_value :
  AMOUNT_TOLERANCE = S754_finite false 5764607523034235 (-59).
Proof. vm_compute. reflexivity. Qed.

End Amounts.

(** C7, as the code has it.  The test of the tolerance is made on
    doubles.  A missing parking fee counts as 0, the verdict is the same
    whichever of the two amounts is the larger, and against an expected
    1350.00 the amounts 1350.01 and 1349.99 are accepted while 1350.02
    and 1349.98 are rejected.  But against an expected 2500.00 the
    amounts 2500.01 and 2499.99, one cent off, are rejected: the nearest
    doubles are farther apart than the double nearest to 0.01.  The
    notification of 2,500.01 dollars from a tenant whose rent is 2500.00
    ends in ValidationFailed. *)
Theorem one_cent_off_can_be_rejected :
  (forall tenant,
     parking_fee tenant = None ->
     Processor.parking_fee_of tenant = Float.zero)
  /\ (forall received tenant,
        Processor.amount_mismatch received tenant
        = Float.gt
            (Float.abs
               (Float.sub (Processor.expected_amount tenant) received))
            Processor.AMOUNT_TOLERANCE)
  /\ Processor.expected_amount Scenario.john = Float.of_decimal "1350.00"
  /\ Processor.amount_mismatch (Float.of_decimal "1350.01") Scenario.john
     = false
  /\ Processor.amount_mismatch (Float.of_decimal "1350.02") Scenario.john
     = true
  /\ Processor.amount_mismatch (Float.of_decimal "1349.99") Scenario.john
     = false
  /\ Processor.amount_mismatch (Float.of_decimal "1349.98") Scenario.john
     = true
  /\ Spec.amount_text 250001 = "2500.01"
  /\ Spec.amount_text 250000 = "2500.00"
  /\ Spec.within_tolerance 250001 250000 = true
  /\ Processor.expected_amount Cases.mary
     = Float.of_decimal (Spec.amount_text 250000)
  /\ Processor.amount_mismatch (Float.of_decimal (Spec.amount_text 250001))
       Cases.mary = true
  /\ Processor.amount_mismatch (Float.of_decimal (Spec.amount_text 249999))
       Cases.mary = true
  /\ (exists payment,
        Parser.parse_interac_email "msg-3" Cases.one_cent_over
          Scenario.body Scenario.received = Some payment
        /\ amount payment = Float.of_decimal "2500.01"
        /\ outcome_of
             (fst (Processor.process_single_payment Scenario.env_ok payment
                     Cases.mary_world))
           = ValidationFailed
               ("Amount mismatch: received $2500.01, expected $2500.00 "
                ++ "(rent: $2500.00 + parking: $0.00)")).
Proof.
  split.
  { intros tenant Hnone. unfold Processor.parking_fee_of.
    rewrite Hnone. reflexivity. }
  split.
  { intros received tenant.
    unfold Processor.amount_mismatch, Float.abs, Float.sub.
    rewrite SFsub_abs_sym. reflexivity. }
  repeat (split; [vm_compute; reflexivity|]).
  eexists. split; [vm_compute; reflexivity|].
  split; vm_compute; reflexivity.
Qed.

(** ** What the patterns capture *)

Section Captures.

Import Text Regex.

Lemma length_app (m s : string) :
  String.length (m ++ s) = (String.length m + String.length s)%nat.
Proof.
  induction m as [|c m IH]; simpl; [reflexivity|]. rewrite IH. reflexivity.
Qed.

Lemma app_assoc_str (a b c : string) : ((a ++ b) ++ c = a ++ (b ++ c))%string.
Proof.
  induction a as [|x a IH]; simpl; [reflexivity|]. rewrite IH. reflexivity.
Qed.

Lemma substring_prefix (m s : string) :
  substring 0 (String.length m) (m ++ s) = m.
Proof.
  induction m as [|c m IH]; simpl.
  - destruct s; reflexivity.
  - rewrite IH. reflexivity.
Qed.

(** What was consumed between a text and its rest is the text in front
    of the rest. *)
Lemma consumed_app (m s : string) : consumed (m ++ s) s = m.
Proof.
  unfold consumed. rewrite length_app.
  replace (String.length m + String.length s - String.length s)%nat
    with (String.length m) by lia.
  apply substring_prefix.
Qed.

Lemma all_chars_app (P : ascii -> bool) (a b : string) :
  all_chars P (a ++ b) = all_chars P a && all_chars P b.
Proof.
  induction a as [|c a IH]; simpl; [reflexivity|].
  rewrite IH. apply andb_assoc.
Qed.

Lemma all_chars_weaken (P Q : ascii -> bool) (s : string) :
  (forall c, P c = true -> Q c = true) ->
  all_chars P s = true -> all_chars Q s = true.
Proof.
  intros HPQ. induction s as [|c s IH]; simpl; [reflexivity|].
  intros H. apply andb_true_iff in H. destruct H as [Hc Hs].
  rewrite (HPQ c Hc), (IH Hs). reflexivity.
Qed.

(** A repetition reads characters of its class and then goes on. *)
Lemma rep_reads (lazy : bool) (p : ascii -> bool) (k : string -> option hit)
    (h : hit) :
  forall s lo hi,
    rep lazy lo hi p s k = Some h ->
    exists m s', s = (m ++ s')%string /\ all_chars p m = true
                 /\ k s' = Some h.
Proof.
  assert (Hstop : forall s lo,
             match lo with O => k s | S _ => None end = Some h ->
             exists m s', s = (m ++ s')%string /\ all_chars p m = true
                          /\ k s' = Some h).
  { intros s lo H. destruct lo; [|discriminate].
    exists EmptyString, s. repeat split. exact H. }
  induction s as [|c s IH]; intros lo hi H.
  - simpl in H. apply (Hstop _ lo).
    destruct lazy, lo; try discriminate; [|exact H].
    destruct (k EmptyString); [exact H | discriminate].
  - simpl in H.
    assert (Hmore : (if p c && may_repeat hi
                     then rep lazy (Nat.pred lo) (one_less hi) p s k
                     else None) = Some h ->
                    exists m s', String c s = (m ++ s')%string
                                 /\ all_chars p m = true /\ k s' = Some h).
    { intros Hm. destruct (p c) eqn:Hc; simpl in Hm; [|discriminate].
      destruct (may_repeat hi); [|discriminate].
      apply IH in Hm. destruct Hm as [m [s' [Hs [Hall Hk]]]].
      exists (String c m), s'. subst s. simpl. rewrite Hc, Hall.
      repeat split. exact Hk. }
    destruct lazy.
    + destruct (match lo with O => k (String c s) | S _ => None end) eqn:Hs.
      * inversion H; subst. apply (Hstop _ lo). exact Hs.
      * apply Hmore. exact H.
    + destruct (if p c && may_repeat hi
                then rep false (Nat.pred lo) (one_less hi) p s k
                else None) eqn:Hm.
      * apply Hmore. exact H.
      * apply (Hstop _ lo). exact H.
Qed.

(** A pattern without groups hands the groups on as they are. *)
Lemma run_group_free (r : re) :
  group_free r = true ->
  forall s caps k h,
    run r s caps k = Some h -> exists s', k s' caps = Some h.
Proof.
  induction r as [|p|r1 IH1 r2 IH2|r1 IH1 r2 IH2|lazy lo hi p|r IH|];
    intros Hfree s caps k h H; simpl in *; try discriminate.
  - exists s. exact H.
  - destruct s as [|c s]; [discriminate|].
    destruct (p c); [|discriminate]. exists s. exact H.
  - apply andb_true_iff in Hfree. destruct Hfree as [H1 H2].
    apply (IH1 H1) in H. destruct H as [s1 H].
    apply (IH2 H2) in H. exact H.
  - apply andb_true_iff in Hfree. destruct Hfree as [H1 H2].
    destruct (run r1 s caps k) eqn:Hr1.
    + inversion H; subst. apply (IH1 H1) in Hr1. exact Hr1.
    + apply (IH2 H2) in H. exact H.
  - apply rep_reads in H. destruct H as [m [s' [_ [_ H]]]].
    exists s'. exact H.
  - destruct (at_dollar s); [|discriminate]. exists s. exact H.
Qed.

(** A pattern that reads characters of [P] only consumes and captures
    texts of such characters. *)
Lemma run_reads_only (P : ascii -> bool) (r : re) :
  reads_only P r ->
  forall s caps k h,
    run r s caps k = Some h ->
    exists m s' new,
      s = (m ++ s')%string /\ all_chars P m = true
      /\ Forall (fun g => all_chars P g = true) new
      /\ k s' (caps ++ new)%list = Some h.
Proof.
  induction r as [|p|r1 IH1 r2 IH2|r1 IH1 r2 IH2|lazy lo hi p|r IH|];
    intros Hr s caps k h H; simpl in *.
  - exists EmptyString, s, []. rewrite app_nil_r. repeat split; auto.
  - destruct s as [|c s]; [discriminate|].
    destruct (p c) eqn:Hc; [|discriminate].
    exists (String c EmptyString), s, []. rewrite app_nil_r. simpl.
    rewrite (Hr c Hc). repeat split; auto.
  - destruct Hr as [Hr1 Hr2].
    apply (IH1 Hr1) in H. destruct H as [m1 [s1 [new1 [Hs [Hm1 [Hn1 H]]]]]].
    apply (IH2 Hr2) in H. destruct H as [m2 [s2 [new2 [Hs1 [Hm2 [Hn2 H]]]]]].
    exists (m1 ++ m2)%string, s2, (new1 ++ new2)%list. subst s s1.
    rewrite app_assoc_str, all_chars_app, Hm1, Hm2, app_assoc.
    repeat split; auto. apply Forall_app. split; assumption.
  - destruct Hr as [Hr1 Hr2].
    destruct (run r1 s caps k) eqn:Hrun.
    + inversion H; subst. apply (IH1 Hr1) in Hrun. exact Hrun.
    + apply (IH2 Hr2) in H. exact H.
  - apply rep_reads in H. destruct H as [m [s' [Hs [Hm H]]]].
    exists m, s', []. rewrite app_nil_r. repeat split; auto.
    apply (all_chars_weaken p P); assumption.
  - apply (IH Hr) in H. destruct H as [m [s' [new [Hs [Hm [Hn H]]]]]].
    exists m, s', (new ++ [m])%list. subst s.
    rewrite consumed_app, <- app_assoc in H.
    repeat split; auto. apply Forall_app. split; [exact Hn|].
    constructor; [exact Hm | constructor].
  - destruct (at_dollar s); [|discriminate].
    exists EmptyString, s, []. rewrite app_nil_r. repeat split; auto.
Qed.

Lemma search_match_here (r : re) (h : hit) :
  forall s, search r s = Some h -> exists s0, match_here r s0 = Some h.
Proof.
  induction s as [|c s IH]; intros H; simpl in H.
  - destruct (match_here r EmptyString) eqn:Hm; [|discriminate].
    inversion H; subst. exists EmptyString. exact Hm.
  - destruct (match_here r (String c s)) eqn:Hm.
    + inversion H; subst. exists (String c s). exact Hm.
    + apply IH. exact H.
Qed.

End Captures.

(** ** The amount that the parser reads *)

Section ParsedAmount.

Import Text Regex Parser.

Lemma amount_group_chars (subject : string) (h : hit) :
  search amount_re subject = Some h ->
  all_chars amount_char (group1 h) = true.
Proof.
  intros H. apply search_match_here in H. destruct H as [s0 H].
  change (run (lit_i "You've received $") s0 []
            (fun s' caps' =>
               run amount_group s' caps' (fun s'' caps => Some (caps, s'')))
          = Some h) in H.
  apply run_group_free in H; [|vm_compute; reflexivity].
  destruct H as [s1 H].
  apply (run_reads_only amount_char) in H.
  - destruct H as [m [s' [new [_ [_ [Hnew H]]]]]].
    inversion H; subst. unfold group1. simpl.
    destruct Hnew as [|g new Hg _]; [reflexivity | exact Hg].
  - unfold amount_group, plus, chr, times. cbn [cat reads_only].
    unfold amount_char. repeat split; intros c Hc.
    + rewrite Hc. reflexivity.
    + rewrite Ascii.eqb_sym in Hc. rewrite Hc.
      rewrite orb_true_r. reflexivity.
    + rewrite Hc. reflexivity.
Qed.

(** Removing a one-character text is filtering the character out. *)
Lemma remove_all_char (c : ascii) (s : string) :
  remove_all (String c EmptyString) s
  = filter_str (fun x => negb (Ascii.eqb c x)) s.
Proof.
  unfold remove_all. induction s as [|x s IH]; [reflexivity|].
  cbn [remove_go starts_with filter_str String.length Nat.pred].
  rewrite andb_true_r.
  destruct (Ascii.eqb c x); cbn [negb]; rewrite IH; reflexivity.
Qed.

Lemma amount_text_chars (g : string) :
  all_chars amount_char g = true ->
  all_chars digit_or_point (remove_all "," g) = true.
Proof.
  rewrite remove_all_char.
  induction g as [|c g IH]; [reflexivity|].
  cbn [all_chars filter_str].
  intros H. apply andb_true_iff in H. destruct H as [Hc Hg].
  destruct (Ascii.eqb "," c) eqn:Hcomma; cbn [negb all_chars];
    [exact (IH Hg)|].
  rewrite (IH Hg), andb_true_r.
  unfold amount_char in Hc. unfold digit_or_point.
  rewrite Ascii.eqb_sym in Hcomma. rewrite Hcomma, orb_false_r in Hc.
  exact Hc.
Qed.

Lemma rev_onto_chars (P : ascii -> bool) (s : string) :
  forall acc,
    all_chars P s = true -> all_chars P acc = true ->
    all_chars P (rev_onto s acc) = true.
Proof.
  induction s as [|c s IH]; intros acc Hs Hacc; simpl in *; [exact Hacc|].
  apply andb_true_iff in Hs. destruct Hs as [Hc Hs].
  apply IH; [exact Hs|]. simpl. rewrite Hc, Hacc. reflexivity.
Qed.

(** The fields of a text of digits and points are texts of digits. *)
Lemma split_on_point_digits (s : string) :
  forall cur,
    all_chars digit_or_point s = true ->
    all_chars is_digit cur = true ->
    Forall (fun f => all_chars is_digit f = true) (split_on_go "." s cur).
Proof.
  induction s as [|c s IH]; intros cur Hs Hcur;
    cbn [split_on_go all_chars] in *.
  - constructor; [|constructor].
    apply rev_onto_chars; [exact Hcur | reflexivity].
  - apply andb_true_iff in Hs. destruct Hs as [Hc Hs].
    destruct (Ascii.eqb c ".") eqn:Hpoint.
    + constructor.
      * apply rev_onto_chars; [exact Hcur | reflexivity].
      * apply IH; [exact Hs | reflexivity].
    + apply IH; [exact Hs|]. cbn [all_chars]. rewrite Hcur, andb_true_r.
      unfold digit_or_point in Hc. rewrite Hpoint, orb_false_r in Hc.
      exact Hc.
Qed.

Lemma digits_value_nonneg (s : string) :
  forall acc,
    all_chars is_digit s = true -> 0 <= acc -> 0 <= digits_value s acc.
Proof.
  induction s as [|c s IH]; intros acc Hs Hacc;
    cbn [digits_value all_chars] in *; [exact Hacc|].
  apply andb_true_iff in Hs. destruct Hs as [Hc Hs].
  apply IH; [exact Hs|].
  unfold is_digit, between in Hc. apply andb_true_iff in Hc.
  destruct Hc as [Hlo _]. apply Z.leb_le in Hlo. lia.
Qed.

(** The double nearest to a fraction that is not negative is not
    negative, and is a number or the infinity. *)
Lemma of_ratio_sign (n : Z) (d : positive) :
  0 <= n -> Float.has_sign false (Float.of_ratio n d).
Proof.
  intros Hn. unfold Float.of_ratio.
  destruct n as [|p|p]; [reflexivity| |lia].
  unfold SFdiv, SFdiv_core_binary.
  set (m' := match _ - _ - _ with
             | Z0 => Z.pos p
             | Z.pos _ => Z.shiftl (Z.pos p) _
             | Z.neg _ => 0
             end).
  assert (Hm' : 0 <= m').
  { subst m'. destruct (_ - _ - _); [lia| |lia].
    apply Z.shiftl_nonneg. lia. }
  pose proof (Z.div_pos m' (Z.pos d) Hm' (Pos2Z.is_pos d)) as Hq.
  unfold Z.div in Hq. destruct (Z.div_eucl m' (Z.pos d)) as [q r].
  apply binary_round_aux_sign. exact Hq.
Qed.

Lemma of_decimal_sign (t : string) :
  all_chars digit_or_point t = true ->
  Float.has_sign false (Float.of_decimal t).
Proof.
  intros Ht. unfold Float.of_decimal.
  pose proof (split_on_point_digits t EmptyString Ht eq_refl) as Hf.
  fold (split_on "." t) in Hf.
  destruct (split_on "." t) as [|ip [|fp rest]]; [reflexivity| |].
  - apply of_ratio_sign. inversion Hf; subst.
    apply digits_value_nonneg; [assumption | lia].
  - apply of_ratio_sign. inversion Hf as [|? ? Hip Hrest]; subst.
    inversion Hrest as [|? ? Hfp _]; subst.
    apply digits_value_nonneg; [|lia].
    rewrite all_chars_app, Hip, Hfp. reflexivity.
Qed.

Lemma extract_amount_sign (subject : string) (a : Float.float) :
  extract_amount subject = Some a -> Float.has_sign false a.
Proof.
  unfold extract_amount.
  destruct (search amount_re subject) as [h|] eqn:Hs; [|discriminate].
  intros H. inversion H; subst.
  apply of_decimal_sign, amount_text_chars, (amount_group_chars subject h Hs).
Qed.

Lemma nonneg_of_sign (x : Float.float) :
  Float.has_sign false x -> Float.ge x Float.zero = true.
Proof. destruct x; simpl; intros H; try contradiction; subst; reflexivity. Qed.

(** C8, as the code has it. The amount of a parsed payment is never
    negative: it is zero or more, the subject deciding which. *)
Theorem parsed_amount_not_negative :
  forall (message_id subject body : string) (email_date : Dates.Date)
         (payment : ParsedInteracEmail),
    parse_interac_email message_id subject body email_date = Some payment ->
    Float.ge (amount payment) Float.zero = true.
Proof.
  intros message_id subject body email_date payment H.
  unfold parse_interac_email in H.
  destruct (extract_amount subject) as [a|] eqn:Ha; [|discriminate].
  destruct (extract_sender subject) as [sender|]; [|discriminate].
  inversion H; subst. simpl.
  apply nonneg_of_sign, (extract_amount_sign subject a Ha).
Qed.

End ParsedAmount.

(** The scenario's notification has an amount that is not negative. *)
Lemma parsed_amount_not_negative_witness :
  Float.ge (amount Scenario.payment) Float.zero = true.
Proof.
  apply (parsed_amount_not_negative "msg-1" Scenario.subject Scenario.body
           Scenario.received Scenario.payment).
  vm_compute. reflexivity.
Defined.

(** A notification of 0.00 dollars is parsed into a payment of amount
    zero, which is not above zero. *)
Lemma parsed_amount_can_be_zero :
  ~ (forall (message_id subject body : string) (email_date : Dates.Date)
            (payment : ParsedInteracEmail),
       Parser.parse_interac_email message_id subject body email_date
       = Some payment ->
       Float.gt (amount payment) Float.zero = true).
Proof.
  intros H.
  specialize (H "msg-0"
                "Interac e-Transfer: You've received $0.00 from John Doe"
                "" Scenario.received
                {| email_id := "msg-0"; sender_name := "John Doe";
                   amount := Float.zero;
                   payment_date := Scenario.received;
                   message_line := None;
                   raw_subject :=
                     "Interac e-Transfer: You've received $0.00 from John Doe"
                |} eq_refl).
  discriminate H.
Qed.

(** ** Tenant lookup *)

Section Lookup.

Import Text Regex Eff Supabase.

(** A pattern of plain characters covers exactly the value equal to it,
    and reports no error. *)
Lemma like_plain (p : string) :
  all_chars plain p = true ->
  forall v, is_match (like p v) = String.eqb p v
            /\ is_error (like p v) = false.
Proof.
  induction p as [|c p IH]; intros Hp v.
  - destruct v; split; reflexivity.
  - cbn [all_chars] in Hp. apply andb_true_iff in Hp.
    destruct Hp as [Hc Hp].
    unfold plain in Hc. apply negb_true_iff in Hc.
    apply orb_false_iff in Hc. destruct Hc as [Hc Hstar].
    apply orb_false_iff in Hc. destruct Hc as [Hc Hesc].
    apply orb_false_iff in Hc. destruct Hc as [Hpct Hund].
    destruct v as [|d v].
    + cbn [like all_percent]. rewrite Hpct. split; reflexivity.
    + cbn [like]. rewrite Hpct, Hund, Hesc. cbn [String.eqb].
      destruct (Ascii.eqb c d); [apply (IH Hp v) | split; reflexivity].
Qed.

Lemma plain_lower (c : ascii) : plain c = true -> plain (lower c) = true.
Proof.
  destruct c as [[] [] [] [] [] [] [] []]; vm_compute; intros H;
    first [reflexivity | discriminate].
Qed.

Lemma lower_plain (p : string) :
  all_chars plain p = true -> all_chars plain (map_str lower p) = true.
Proof.
  induction p as [|c p IH]; intros Hp; [reflexivity|].
  cbn [all_chars] in Hp. apply andb_true_iff in Hp. destruct Hp as [Hc Hp].
  cbn [map_str all_chars]. rewrite (plain_lower c Hc), (IH Hp). reflexivity.
Qed.

Lemma star_to_percent_plain (p : string) :
  all_chars plain p = true -> map_str star_to_percent p = p.
Proof.
  induction p as [|c p IH]; intros Hp; [reflexivity|].
  cbn [all_chars] in Hp. apply andb_true_iff in Hp. destruct Hp as [Hc Hp].
  cbn [map_str]. rewrite (IH Hp). unfold star_to_percent.
  unfold plain in Hc. apply negb_true_iff in Hc.
  apply orb_false_iff in Hc. destruct Hc as [_ Hstar].
  rewrite Hstar. reflexivity.
Qed.

(** For a name of plain characters the filter is equality up to letter
    case, and the server reports no error. *)
Lemma ilike_plain (name value : string) :
  all_chars plain name = true ->
  (is_match (ilike name value) = true
   <-> map_str lower name = map_str lower value)
  /\ is_error (ilike name value) = false.
Proof.
  intros Hp. unfold ilike. rewrite (star_to_percent_plain name Hp).
  destruct (like_plain (map_str lower name) (lower_plain name Hp)
              (map_str lower value)) as [Hm He].
  rewrite Hm, He. split; [apply String.eqb_eq | reflexivity].
Qed.

End Lookup.

(** C5, as the code has it. The lookup hands the sender name to [ilike]
    as a pattern: "John D_e", "John*" and "%" all find the tenant
    "John Doe", whose name none of them equals up to letter case; a name
    in another letter case finds the tenant and a misspelt one does
    not; and a notification from the sender "John D_e" is processed as a
    payment of the tenant "John Doe". *)
Theorem lookup_reads_sender_as_pattern :
  let find name :=
    fst (Supabase.get_tenant_by_name Scenario.env_ok name Scenario.world) in
  find "John D_e" = inr (Some Scenario.john)
  /\ Text.map_str Text.lower "John D_e" <> Text.map_str Text.lower "John Doe"
  /\ find "John*" = inr (Some Scenario.john)
  /\ find "%" = inr (Some Scenario.john)
  /\ find "JOHN doe" = inr (Some Scenario.john)
  /\ find "Jon Doe" = inr None
  /\ processed
       (fst (Processor.process_new_payments Scenario.env_ok
               (mkWorld (mkDatabase [Scenario.john] [])
                  [Scenario.message "msg-2"
                     ("Interac e-Transfer: You've received $1,350.00 "
                      ++ "from John D_e")])))
     = [success_result "John Doe" (Float.of_decimal "1350.00") "November"
          (Some "0006") 1].
Proof.
  repeat split; try (vm_compute; reflexivity).
  vm_compute. discriminate.
Qed.

(** ** The period of a payment *)

Section Period.

Import Text Dates Processor.

Lemma reads_back_all :
  forallb (fun y => forallb (reads_back y) (map Z.of_nat (seq 1 12)))
          (map Z.of_nat (seq 1 (Z.to_nat 9999))) = true.
Proof. vm_compute. reflexivity. Qed.

Lemma in_range (n : Z) (hi : nat) :
  1 <= n <= Z.of_nat hi -> In n (map Z.of_nat (seq 1 hi)).
Proof.
  intros H. apply in_map_iff. exists (Z.to_nat n). split; [lia|].
  apply in_seq. lia.
Qed.

(** A period of the ledger reads back as the first day of its month. *)
Lemma first_of_month_year_month (y m : Z) :
  1 <= y <= 9999 -> 1 <= m <= 12 ->
  first_of_month (year_month y m) = inr (mkDate y m 1).
Proof.
  intros Hy Hm.
  pose proof reads_back_all as Hall.
  rewrite forallb_forall in Hall.
  specialize (Hall y (in_range y (Z.to_nat 9999) ltac:(lia))).
  rewrite forallb_forall in Hall.
  specialize (Hall m (in_range m 12 ltac:(lia))).
  unfold reads_back in Hall.
  destruct (first_of_month (year_month y m)) as [e|[y' m' d']];
    [discriminate|].
  simpl in Hall.
  apply andb_true_iff in Hall. destruct Hall as [Hall Hd].
  apply andb_true_iff in Hall. destruct Hall as [Hy' Hm'].
  apply Z.eqb_eq in Hy', Hm', Hd. subst. reflexivity.
Qed.

Lemma nonempty_false (s : string) : nonempty s = false <-> s = "".
Proof. destruct s; simpl; split; congruence. Qed.

Lemma nonempty_true (s : string) : nonempty s = true <-> s <> "".
Proof. destruct s; simpl; split; congruence. Qed.

Lemma determine_period_without_label (payment : ParsedInteracEmail)
    (tenant : Tenant) :
  match message_line payment with
  | Some message => clean_message message
  | None => ""
  end = "" ->
  determine_period payment tenant = period_of_next_due payment tenant.
Proof.
  unfold determine_period. destruct (message_line payment) as [message|];
    [|reflexivity].
  intros H. rewrite H. simpl. destruct (nonempty message); reflexivity.
Qed.

(** C9, as the code has it. For a message line of ASCII, the period is
    the message line without the occurrences of "rent" and then, in what
    is left, without those of "Rent", trimmed, when that is not empty,
    whatever the tenant's next due period; else, for a next due period
    YYYY-MM, the long name of the month and the year; else, when the
    next due period is missing, empty, or a text of ASCII for which the
    reading of year and month raises ValueError, the month and year of
    the payment date; and when the reading raises OverflowError, for a
    year or month beyond a C int, there is no period: the exception
    leaves [_determine_period].  "November Rent" with next due "2024-10"
    gives "November"; no message with next due "2024-11" gives
    "November 2024"; "Rerentnt" is removed whole; and the next due
    period "2147483648-01" raises. *)
Theorem period_resolution_priority :
  forall (payment : ParsedInteracEmail) (tenant : Tenant),
    (forall message, message_line payment = Some message ->
                     Regex.all_chars is_ascii message = true) ->
    let label :=
      match message_line payment with
      | Some message =>
          strip (remove_all "Rent" (remove_all "rent" message))
      | None => ""
      end in
    (label <> "" -> determine_period payment tenant = inr label)
    /\ (label = "" ->
        forall y m, 1000 <= y <= 9999 -> 1 <= m <= 12 ->
          next_due_month tenant = Some (year_month y m) ->
          determine_period payment tenant
          = inr (month_name m ++ " " ++ show_Z y)%string)
    /\ (label = "" ->
        next_due_month tenant = None
        \/ next_due_month tenant = Some ""
        \/ (exists s, next_due_month tenant = Some s
                      /\ Regex.all_chars is_ascii s = true
                      /\ first_of_month s = inl ValueError) ->
        determine_period payment tenant
        = inr (month_name (month (payment_date payment)) ++ " "
               ++ show_Z (year (payment_date payment)))%string)
    /\ (label = "" ->
        forall s msg,
          next_due_month tenant = Some s ->
          first_of_month s = inl (OverflowError msg) ->
          determine_period payment tenant = inl (OtherException msg))
    /\ determine_period (Scenario.payment_saying (Some "November Rent"))
         (Scenario.john_due (Some "2024-10")) = inr "November"
    /\ determine_period (Scenario.payment_saying None)
         (Scenario.john_due (Some "2024-11")) = inr "November 2024"
    /\ determine_period (Scenario.payment_saying (Some "Rerentnt November"))
         (Scenario.john_due (Some "2024-10")) = inr "November"
    /\ determine_period (Scenario.payment_saying None)
         (Scenario.john_due (Some "2147483648-01"))
       = inl (OtherException "signed integer is greater than maximum").
Proof.
  intros payment tenant _ label.
  split; [|split; [|split; [|split;
    [|repeat split; vm_compute; reflexivity]]]].
  - intros Hlabel. unfold determine_period.
    subst label. destruct (message_line payment) as [message|];
      [|congruence].
    fold (clean_message message) in *.
    apply nonempty_true in Hlabel.
    destruct (nonempty message) eqn:Hmsg.
    + rewrite Hlabel. reflexivity.
    + apply nonempty_false in Hmsg. subst message.
      vm_compute in Hlabel. discriminate.
  - intros Hlabel y m Hy Hm Hdue.
    rewrite (determine_period_without_label payment tenant Hlabel).
    unfold period_of_next_due. rewrite Hdue.
    rewrite (first_of_month_year_month y m ltac:(lia) Hm).
    assert (Hne : nonempty (year_month y m) = true).
    { unfold year_month, Float.two_digits. reflexivity. }
    rewrite Hne. reflexivity.
  - intros Hlabel Hdue.
    rewrite (determine_period_without_label payment tenant Hlabel).
    unfold period_of_next_due.
    destruct Hdue as [Hdue|[Hdue|[s [Hdue [_ Hbad]]]]]; rewrite Hdue;
      try reflexivity.
    rewrite Hbad. destruct (nonempty s); reflexivity.
  - intros Hlabel s msg Hdue Hbad.
    rewrite (determine_period_without_label payment tenant Hlabel).
    unfold period_of_next_due. rewrite Hdue, Hbad.
    destruct (nonempty s) eqn:Hs; [reflexivity|].
    apply nonempty_false in Hs. subst s. vm_compute in Hbad. discriminate.
Qed.

End Period.

(** The rules on the scenario's tenant. *)
Lemma period_resolution_priority_witness :
  Processor.determine_period (Scenario.payment_saying (Some "November Rent"))
    (Scenario.john_due (Some "2024-10")) = inr "November"
  /\ Processor.determine_period (Scenario.payment_saying (Some "rent"))
       (Scenario.john_due (Some "2024-11")) = inr "November 2024"
  /\ Processor.determine_period (Scenario.payment_saying None)
       (Scenario.john_due (Some "soon")) = inr "November 2024"
  /\ Processor.determine_period (Scenario.payment_saying None)
       (Scenario.john_due (Some "2024-99999999999"))
     = inl (OtherException "signed integer is greater than maximum").
Proof.
  split; [|split; [|split]].
  - destruct (period_resolution_priority
                (Scenario.payment_saying (Some "November Rent"))
                (Scenario.john_due (Some "2024-10"))) as [H _].
    + intros message Hm. inversion Hm. reflexivity.
    + apply H. vm_compute. discriminate.
  - destruct (period_resolution_priority
                (Scenario.payment_saying (Some "rent"))
                (Scenario.john_due (Some "2024-11"))) as [_ [H _]].
    + intros message Hm. inversion Hm. reflexivity.
    + apply (H eq_refl 2024 11); [lia | lia | reflexivity].
  - destruct (period_resolution_priority
                (Scenario.payment_saying None)
                (Scenario.john_due (Some "soon"))) as [_ [_ [H _]]].
    + intros message Hm. discriminate.
    + apply (H eq_refl). right. right. exists "soon".
      split; [reflexivity | split; reflexivity].
  - destruct (period_resolution_priority
                (Scenario.payment_saying None)
                (Scenario.john_due (Some "2024-99999999999")))
      as [_ [_ [_ [H _]]]].
    + intros message Hm. discriminate.
    + apply (H eq_refl "2024-99999999999"); reflexivity.
Defined.

(** "RENT" in capitals stays in the period, where the removal of "rent"
    in any letter case leaves "November". *)
Lemma capital_rent_stays_in_period :
  Processor.determine_period (Scenario.payment_saying (Some "November RENT"))
    (Scenario.john_due (Some "2024-10")) = inr "November RENT"
  /\ Spec.period (Scenario.payment_saying (Some "November RENT"))
       (Scenario.john_due (Some "2024-10")) = inr "November".
Proof. split; vm_compute; reflexivity. Qed.

(** ** The message line *)

Section MessageLine.

Import Text Regex Parser.

Lemma lstrip_chars (P : ascii -> bool) (s : string) :
  all_chars P s = true -> all_chars P (lstrip s) = true.
Proof.
  induction s as [|c s IH]; intros H; [reflexivity|].
  cbn [lstrip]. destruct (is_space c); [|exact H].
  cbn [all_chars] in H. apply andb_true_iff in H. apply IH, H.
Qed.

Lemma rev_str_chars (P : ascii -> bool) (s : string) :
  all_chars P s = true -> all_chars P (rev_str s) = true.
Proof. intros H. apply rev_onto_chars; [exact H | reflexivity]. Qed.

Lemma strip_chars (P : ascii -> bool) (s : string) :
  all_chars P s = true -> all_chars P (strip s) = true.
Proof.
  intros H. unfold strip, rstrip.
  apply rev_str_chars, lstrip_chars, rev_str_chars, lstrip_chars, H.
Qed.

Lemma message_group_chars (body_clean : string) (h : hit) :
  search message_re body_clean = Some h ->
  all_chars not_D (group1 h) = true.
Proof.
  intros H. apply search_match_here in H. destruct H as [s0 H].
  change (run (lit_i "Message:") s0 []
            (fun s1 caps1 =>
               run (star is_space) s1 caps1
                 (fun s2 caps2 =>
                    run (Grp (plus_lazy not_D)) s2 caps2
                      (fun s3 caps3 =>
                         run (Cat (star is_space)
                                (alt [ lit_i "Date:"; lit_i "Reference";
                                       lit_i "Sent From:"; lit_i "Amount:" ]))
                             s3 caps3 (fun s4 caps => Some (caps, s4)))))
          = Some h) in H.
  apply run_group_free in H; [|vm_compute; reflexivity].
  destruct H as [s1 H].
  apply run_group_free in H; [|reflexivity].
  destruct H as [s2 H].
  apply (run_reads_only not_D) in H; [|intros c Hc; exact Hc].
  destruct H as [m [s3 [new [_ [_ [Hnew H]]]]]].
  apply run_group_free in H; [|vm_compute; reflexivity].
  destruct H as [s4 H]. inversion H; subst.
  unfold group1. simpl.
  destruct Hnew as [|g new Hg _]; [reflexivity | exact Hg].
Qed.

(** No message line that the code extracts has the letter D in it. *)
Lemma extract_message_line_without_d (body_clean message : string) :
  extract_message_line body_clean = Some message ->
  all_chars not_D message = true.
Proof.
  unfold extract_message_line.
  destruct (search message_re body_clean) as [h|] eqn:Hs; [|discriminate].
  intros H. inversion H; subst.
  apply strip_chars, (message_group_chars body_clean h Hs).
Qed.

End MessageLine.

(** C4, as the code has it. The pattern of the message line keeps the
    letter D, in either case, out of the message: no message line that
    the code extracts contains it, and for the body with the message
    "December rent" in front of "Date:" the code finds no message line,
    where the text between "Message:" and "Date:" is "December rent";
    the message "November rent" is found. *)
Theorem message_with_letter_d_is_lost :
  let body := "Message: December rent Date: December 1, 2024" in
  (forall body_clean message c,
     Parser.extract_message_line body_clean = Some message ->
     Text.eq_ci c "D" = true ->
     Regex.all_chars (fun x => negb (Ascii.eqb x c)) message = true)
  /\ Parser.clean_body body = body
  /\ Parser.extract_message_line body = None
  /\ Spec.message_text body = Some "December rent"
  /\ option_map message_line
       (Parser.parse_interac_email "msg-1" Scenario.subject body
          Scenario.received) = Some None
  /\ Parser.extract_message_line Scenario.body = Some "November rent"
  /\ Spec.message_text Scenario.body = Some "November rent".
Proof.
  split; [|repeat split; vm_compute; reflexivity].
  intros body_clean message c Hm Hc.
  apply extract_message_line_without_d in Hm.
  apply (all_chars_weaken Parser.not_D); [|exact Hm].
  intros x Hx. unfold Parser.not_D in Hx.
  apply negb_true_iff in Hx. apply negb_true_iff.
  destruct (Ascii.eqb x c) eqn:Heq; [|reflexivity].
  apply Ascii.eqb_eq in Heq. subst x. congruence.
Qed.

(** * Further properties *)

(** ** The ledger period *)

Section Ledger.

Import Text Dates Processor Eff.

Lemma in_range_from (lo len n : Z) :
  0 <= lo <= n -> n < lo + len ->
  In n (map Z.of_nat (seq (Z.to_nat lo) (Z.to_nat len))).
Proof.
  intros Hlo Hhi. apply in_map_iff. exists (Z.to_nat n). split; [lia|].
  apply in_seq. lia.
Qed.

Lemma years_print_alike :
  forallb Admin.year_prints_alike
          (map Z.of_nat (seq (Z.to_nat 1000) (Z.to_nat 9000))) = true.
Proof. vm_compute. reflexivity. Qed.

Lemma months_print_alike :
  forallb Admin.month_prints_alike (map Z.of_nat (seq 1 12)) = true.
Proof. vm_compute. reflexivity. Qed.

(** For a year of four digits, [%Y-%m] and the text of a new tenant's
    period are the text [YYYY-MM]. *)
Lemma prints_year_month (y m : Z) :
  1000 <= y <= 9999 -> 1 <= m <= 12 ->
  (forall d, strftime_Y_m (mkDate y m d) = year_month y m)
  /\ (forall d, Admin.new_next_due (mkDate y m d) = year_month y m).
Proof.
  intros Hy Hm.
  pose proof years_print_alike as Hyears.
  rewrite forallb_forall in Hyears.
  specialize (Hyears y (in_range_from 1000 9000 y ltac:(lia) ltac:(lia))).
  pose proof months_print_alike as Hmonths.
  rewrite forallb_forall in Hmonths.
  specialize (Hmonths m (in_range m 12 ltac:(lia))).
  apply String.eqb_eq in Hyears, Hmonths.
  unfold strftime_Y_m, Admin.new_next_due, year_month. cbn [year month].
  rewrite Hyears, Hmonths, app_assoc_str. split; reflexivity.
Qed.

Lemma year_month_nonempty (y m : Z) : nonempty (year_month y m) = true.
Proof. reflexivity. Qed.

(** The month after [y]-[m]. *)
Lemma plus_one_month_first (y m : Z) :
  1 <= y <= 9999 -> 1 <= m <= 12 -> ~ (y = 9999 /\ m = 12) ->
  exists d,
    plus_one_month (mkDate y m 1)
    = Some (mkDate (if m =? 12 then y + 1 else y)
                   (if m =? 12 then 1 else m + 1) d).
Proof.
  intros Hy Hm Hlast. unfold plus_one_month. cbn [year month day].
  destruct (m =? 12) eqn:Hdec.
  - apply Z.eqb_eq in Hdec.
    assert (Hle : (y + 1 <=? 9999) = true) by (apply Z.leb_le; lia).
    rewrite Hle. eexists. reflexivity.
  - assert (Hle : (y <=? 9999) = true) by (apply Z.leb_le; lia).
    rewrite Hle. eexists. reflexivity.
Qed.

(** X1. [_bump_month] of a period YYYY-MM is the period of the next
    calendar month, December going to January of the next year, whatever
    the current date; the period 9999-12 has no next month. *)
Theorem bump_month_rolls_over :
  forall (S : Type) (env : Env) (s : S) (y m : Z),
    1000 <= y <= 9999 -> 1 <= m <= 12 -> ~ (y = 9999 /\ m = 12) ->
    bump_month env (Some (year_month y m)) s
    = (inr (year_month (if m =? 12 then y + 1 else y)
                       (if m =? 12 then 1 else m + 1)), s).
Proof.
  intros S env s y m Hy Hm Hlast. unfold bump_month.
  rewrite year_month_nonempty.
  rewrite (first_of_month_year_month y m ltac:(lia) Hm).
  destruct (plus_one_month_first y m ltac:(lia) Hm Hlast) as [d Hplus].
  rewrite Hplus. unfold ret. f_equal. f_equal.
  apply prints_year_month.
  - destruct (m =? 12) eqn:Hdec; [apply Z.eqb_eq in Hdec|]; lia.
  - destruct (m =? 12) eqn:Hdec; [|apply Z.eqb_neq in Hdec]; lia.
Qed.

(** X2. Without a period that it can read (none, the empty text, a text
    of ASCII for which the reading of year and month raises ValueError,
    or 9999-12) [_bump_month] answers with the month after the current
    one. *)
Theorem bump_month_falls_back_on_today :
  forall (S : Type) (env : Env) (s : S) (ym : option string) (y m : Z),
    ym = None \/ ym = Some ""
    \/ (exists t, ym = Some t
                  /\ Regex.all_chars is_ascii t = true
                  /\ first_of_month t = inl ValueError)
    \/ ym = Some (year_month 9999 12) ->
    year (today env) = y -> month (today env) = m ->
    1000 <= y <= 9999 -> 1 <= m <= 12 -> ~ (y = 9999 /\ m = 12) ->
    bump_month env ym s
    = (inr (year_month (if m =? 12 then y + 1 else y)
                       (if m =? 12 then 1 else m + 1)), s).
Proof.
  intros S env s ym y m Hym Hyear Hmonth Hy Hm Hlast.
  assert (Htoday : next_month_from_today (S := S) env s
                   = (inr (year_month (if m =? 12 then y + 1 else y)
                                      (if m =? 12 then 1 else m + 1)), s)).
  { unfold next_month_from_today, plus_one_month.
    rewrite Hyear, Hmonth.
    assert (Hle : ((if m =? 12 then y + 1 else y) <=? 9999) = true).
    { apply Z.leb_le. destruct (m =? 12) eqn:Hdec;
        [apply Z.eqb_eq in Hdec|]; lia. }
    rewrite Hle. unfold ret. f_equal. f_equal.
    apply prints_year_month.
    - destruct (m =? 12) eqn:Hdec; [apply Z.eqb_eq in Hdec|]; lia.
    - destruct (m =? 12) eqn:Hdec; [|apply Z.eqb_neq in Hdec]; lia. }
  unfold bump_month.
  destruct Hym as [H|[H|[[t [H [_ Hbad]]]|H]]]; subst ym.
  - exact Htoday.
  - exact Htoday.
  - rewrite Hbad. destruct (nonempty t); exact Htoday.
  - rewrite year_month_nonempty.
    rewrite (first_of_month_year_month 9999 12 ltac:(lia) ltac:(lia)).
    exact Htoday.
Qed.

Lemma strftime_B_Y_nonempty (d : Date) : strftime_B_Y d <> "".
Proof.
  unfold strftime_B_Y. destruct (month_name (month d)); discriminate.
Qed.

(** What [_determine_period] does once the message line gave no period:
    a text that is not empty, or the OverflowError of the reading. *)
Lemma period_of_next_due_cases (payment : ParsedInteracEmail)
    (tenant : Tenant) :
  (exists period,
     period_of_next_due payment tenant = inr period /\ period <> "")
  \/ (exists s msg,
        next_due_month tenant = Some s
        /\ first_of_month s = inl (OverflowError msg)
        /\ period_of_next_due payment tenant = inl (OtherException msg)).
Proof.
  assert (Hdate : exists period,
             inr (period_of_payment_date payment)
             = inr (A := Exn) period /\ period <> "").
  { eexists. split; [reflexivity | apply strftime_B_Y_nonempty]. }
  unfold period_of_next_due.
  destruct (next_due_month tenant) as [due|]; [|left; exact Hdate].
  destruct (nonempty due); [|left; exact Hdate].
  destruct (first_of_month due) as [[|msg]|dt] eqn:Hread.
  - left. exact Hdate.
  - right. exists due, msg.
    split; [reflexivity | split; [exact Hread | reflexivity]].
  - left. eexists. split; [reflexivity | apply strftime_B_Y_nonempty].
Qed.

(** X3. For a message line and a next due period of ASCII,
    [_determine_period] answers with a text that is not empty, or it
    raises the OverflowError of [date]; it raises when the message line
    gives no period and the year or the month of the next due period is
    beyond a C int, and only then. *)
Theorem determine_period_not_empty :
  forall (payment : ParsedInteracEmail) (tenant : Tenant),
    (forall message, message_line payment = Some message ->
                     Regex.all_chars is_ascii message = true) ->
    (forall s, next_due_month tenant = Some s ->
               Regex.all_chars is_ascii s = true) ->
    let label :=
      match message_line payment with
      | Some message => clean_message message
      | None => ""
      end in
    (exists period,
       determine_period payment tenant = inr period /\ period <> "")
    \/ (exists s msg,
          label = ""
          /\ next_due_month tenant = Some s
          /\ first_of_month s = inl (OverflowError msg)
          /\ determine_period payment tenant = inl (OtherException msg)).
Proof.
  intros payment tenant _ _ label.
  assert (Hdue : label = "" ->
            (exists period,
               period_of_next_due payment tenant = inr period
               /\ period <> "")
            \/ (exists s msg,
                  label = ""
                  /\ next_due_month tenant = Some s
                  /\ first_of_month s = inl (OverflowError msg)
                  /\ period_of_next_due payment tenant
                     = inl (OtherException msg))).
  { intros Hlabel.
    destruct (period_of_next_due_cases payment tenant)
      as [H|[s [msg [H1 [H2 H3]]]]]; [left; exact H|].
    right. exists s, msg. repeat split; assumption. }
  subst label. unfold determine_period.
  destruct (message_line payment) as [message|]; [|apply Hdue; reflexivity].
  destruct (nonempty message) eqn:Hmsg.
  - cbv zeta.
    destruct (nonempty (clean_message message)) eqn:Hclean.
    + left. eexists. split; [reflexivity|].
      apply nonempty_true. exact Hclean.
    + apply Hdue. apply nonempty_false. exact Hclean.
  - apply Hdue. apply nonempty_false in Hmsg. subst message.
    reflexivity.
Qed.

End Ledger.

(** ** Payments that match, and what a success writes *)

Section Success.

Import Text Eff Supabase Gmail Processor.

Lemma SFsub_diag (x : spec_float) :
  SFabs (SFsub Float.prec Float.emax x x) = S754_zero false
  \/ SFabs (SFsub Float.prec Float.emax x x) = S754_nan.
Proof.
  destruct x as [s|s| |s m e].
  - left. destruct s; reflexivity.
  - right. destruct s; reflexivity.
  - right. reflexivity.
  - left. unfold SFsub. rewrite Z.sub_diag. reflexivity.
Qed.

(** X4. An amount equal to rent plus parking fee is always accepted. *)
Theorem exact_amount_is_accepted :
  forall tenant : Tenant,
    amount_mismatch (expected_amount tenant) tenant = false.
Proof.
  intros tenant. unfold amount_mismatch, Float.gt, Float.abs, Float.sub.
  rewrite tolerance_value.
  destruct (SFsub_diag (expected_amount tenant)) as [H|H]; rewrite H;
    reflexivity.
Qed.

Variable env : Env.

(** When [_bump_month] returns for the next due period of the tenant,
    [_determine_period] returns too: both read that period the same
    way. *)
Lemma determine_period_returns (payment : ParsedInteracEmail)
    (tenant : Tenant) (due : string) (w w' : World) :
  bump_month env (next_due_month tenant) w = (inr due, w') ->
  exists period, determine_period payment tenant = inr period.
Proof.
  intros Hbump.
  assert (Hdue : exists period,
             period_of_next_due payment tenant = inr period).
  { destruct (period_of_next_due_cases payment tenant)
      as [[period [H _]]|[s [msg [Hs [Hread _]]]]];
      [exists period; exact H|].
    exfalso. unfold bump_month in Hbump. rewrite Hs, Hread in Hbump.
    destruct (nonempty s) eqn:Hne; [discriminate|].
    apply nonempty_false in Hne. subst s. vm_compute in Hread.
    discriminate. }
  unfold determine_period.
  destruct (message_line payment) as [message|]; [|exact Hdue].
  destruct (nonempty message); [|exact Hdue].
  cbv zeta. destruct (nonempty (clean_message message)); [|exact Hdue].
  eexists. reflexivity.
Qed.

(** The state that a successful run leaves. *)
Lemma process_success (payment : ParsedInteracEmail) (tenant : Tenant)
    (period : string) (inv : InvoiceResult) (due : string) (w : World) :
  check_duplicate_payment env (email_id payment) w = (inr false, w) ->
  get_tenant_by_name env (sender_name payment) w = (inr (Some tenant), w) ->
  amount_mismatch (amount payment) tenant = false ->
  determine_period payment tenant = inr period ->
  create_and_send_invoice env tenant (amount payment) period
    (payment_date payment) = inr inv ->
  bump_month env (next_due_month tenant) w = (inr due, w) ->
  raises env (DbCreatePayment (email_id payment)) = None ->
  raises env (DbUpdateTenant (tenant_id tenant)) = None ->
  (forall n, raises env (DbMarkEmailed n) = None) ->
  let number :=
    match last_invoice_no tenant with Some n => n | None => 0 end + 1 in
  let row :=
    {| pay_id := Z.of_nat (List.length (payments (db w))) + 1;
       pay_tenant_id := tenant_id tenant;
       pay_amount := amount payment;
       pay_payment_date := payment_date payment;
       pay_period := period;
       pay_status := "completed";
       pay_email_id := Some (email_id payment);
       pay_invoice_ninja_invoice_id := Some (invoice_id inv);
       pay_email_sent := false;
       pay_notes := Some (payment_notes payment) |} in
  process_single_payment env payment w
  = (inr (success_result (tenant_name tenant) (amount payment) period
            (invoice_number inv) (pay_id row)),
     mkWorld
       (mkDatabase
          (map (update_tenant (tenant_id tenant) number due
                  (Some (client_id inv))) (tenants (db w)))
          (map (set_emailed (pay_id row)) (payments (db w) ++ [row])))
       (inbox w)).
Proof.
  intros Hdup Hfind Hok Hperiod Hninja Hbump Hcreate Hupdate Hmark
         number row.
  unfold process_single_payment, bind.
  rewrite Hdup, Hfind, Hok. unfold lift at 1. rewrite Hperiod.
  unfold invoice_and_send. rewrite Hninja.
  unfold ret at 1. rewrite Hbump.
  unfold create_payment, bind. rewrite (call_ok env _ _ Hcreate).
  unfold get, modify, ret.
  unfold update_tenant_after_payment, bind.
  rewrite (call_ok env _ _ Hupdate). unfold modify.
  unfold mark_payment_emailed, bind.
  rewrite (call_ok env _ _ (Hmark _)). unfold modify.
  reflexivity.
Qed.

Lemma set_emailed_email (n : Z) (p : Payment) :
  pay_email_id (set_emailed n p) = pay_email_id p.
Proof. unfold set_emailed. destruct (pay_id p =? n); reflexivity. Qed.

Lemma update_tenant_other (id : string) (n : Z) (due : string)
    (client : option string) (t : Tenant) :
  tenant_id t <> id -> update_tenant id n due client t = t.
Proof.
  intros Hne. unfold update_tenant.
  destruct (String.eqb (tenant_id t) id) eqn:Heq; [|reflexivity].
  apply String.eqb_eq in Heq. contradiction.
Qed.

Lemma update_tenant_same (id : string) (n : Z) (due : string)
    (client : option string) (t : Tenant) :
  tenant_id t = id ->
  let t' := update_tenant id n due client t in
  tenant_id t' = id /\ last_invoice_no t' = Some n
  /\ next_due_month t' = Some due
  /\ tenant_name t' = tenant_name t /\ monthly_rent t' = monthly_rent t
  /\ parking_fee t' = parking_fee t.
Proof.
  intros Heq. unfold update_tenant. rewrite Heq, String.eqb_refl.
  cbn. repeat split.
Qed.

(** X5. A payment that passes the checks, with every service answering
    (the invoicing for the period that [_determine_period] gives), is a
    success for that period that appends one payment row, keyed by the
    message identifier and marked as emailed, and advances the ledger of
    the tenant: the invoice number grows by exactly one and the next due
    period is the bumped one, while the rows of the other tenants and the
    mailbox stay as they are. *)
Theorem success_records_and_advances :
  forall (payment : ParsedInteracEmail) (tenant : Tenant)
         (inv : InvoiceResult) (due : string) (w : World),
    check_duplicate_payment env (email_id payment) w = (inr false, w) ->
    get_tenant_by_name env (sender_name payment) w = (inr (Some tenant), w) ->
    amount_mismatch (amount payment) tenant = false ->
    (forall period,
       determine_period payment tenant = inr period ->
       create_and_send_invoice env tenant (amount payment) period
         (payment_date payment) = inr inv) ->
    bump_month env (next_due_month tenant) w = (inr due, w) ->
    raises env (DbCreatePayment (email_id payment)) = None ->
    raises env (DbUpdateTenant (tenant_id tenant)) = None ->
    (forall n, raises env (DbMarkEmailed n) = None) ->
    let w' := snd (process_single_payment env payment w) in
    (exists period pid,
       determine_period payment tenant = inr period
       /\ fst (process_single_payment env payment w)
          = inr (success_result (tenant_name tenant) (amount payment)
                   period (invoice_number inv) pid))
    /\ (exists row,
          payments (db w')
          = (map (set_emailed (pay_id row)) (payments (db w)) ++ [row])%list
          /\ pay_email_id row = Some (email_id payment)
          /\ pay_tenant_id row = tenant_id tenant
          /\ pay_amount row = amount payment
          /\ pay_email_sent row = true)
    /\ List.length (tenants (db w')) = List.length (tenants (db w))
    /\ (forall t, In t (tenants (db w)) -> tenant_id t <> tenant_id tenant ->
                  In t (tenants (db w')))
    /\ (forall t', In t' (tenants (db w')) ->
                   tenant_id t' = tenant_id tenant ->
                   last_invoice_no t'
                   = Some (match last_invoice_no tenant with
                           | Some n => n
                           | None => 0
                           end + 1)
                   /\ next_due_month t' = Some due)
    /\ inbox w' = inbox w.
Proof.
  intros payment tenant inv due w Hdup Hfind Hok Hninja Hbump
         Hcreate Hupdate Hmark w'.
  destruct (determine_period_returns payment tenant due w w Hbump)
    as [period Hperiod].
  pose proof (process_success payment tenant period inv due w Hdup Hfind Hok
                Hperiod (Hninja period Hperiod) Hbump Hcreate Hupdate Hmark)
    as Hp.
  cbv zeta in Hp. subst w'. rewrite Hp. cbn [fst snd db payments tenants inbox].
  split; [exists period; eexists; split; [exact Hperiod | reflexivity]|].
  split.
  { set (pid := Z.of_nat (List.length (payments (db w))) + 1).
    exists {| pay_id := pid;
              pay_tenant_id := tenant_id tenant;
              pay_amount := amount payment;
              pay_payment_date := payment_date payment;
              pay_period := period;
              pay_status := "completed";
              pay_email_id := Some (email_id payment);
              pay_invoice_ninja_invoice_id := Some (invoice_id inv);
              pay_email_sent := true;
              pay_notes := Some (payment_notes payment) |}.
    cbn [pay_id pay_email_id pay_tenant_id pay_amount pay_email_sent].
    rewrite map_app. cbn [map]. unfold set_emailed at 2. cbn [pay_id].
    rewrite Z.eqb_refl. repeat split. }
  split; [apply length_map|].
  split.
  { intros t Hin Hne. apply in_map_iff. exists t. split; [|exact Hin].
    apply update_tenant_other. exact Hne. }
  split; [|reflexivity].
  intros t' Hin Hid. apply in_map_iff in Hin. destruct Hin as [t [Ht Hin]].
  subst t'.
  destruct (String.eqb (tenant_id t) (tenant_id tenant)) eqn:Heq.
  - apply String.eqb_eq in Heq.
    pose proof (update_tenant_same (tenant_id tenant)
                  (match last_invoice_no tenant with
                   | Some n => n
                   | None => 0
                   end + 1)
                  due (Some (client_id inv)) t Heq) as Hs.
    cbv zeta in Hs. destruct Hs as [_ [Hn [Hd _]]].
    split; assumption.
  - apply String.eqb_neq in Heq.
    rewrite (update_tenant_other _ _ _ _ t Heq) in Hid. contradiction.
Qed.

(** X6. After a success the same notification is a duplicate: processing
    it again, in whatever environment answers the duplicate check, skips
    it and changes nothing. *)
Theorem success_then_duplicate :
  forall (payment : ParsedInteracEmail) (tenant : Tenant)
         (inv : InvoiceResult) (due : string) (w : World) (later : Env),
    check_duplicate_payment env (email_id payment) w = (inr false, w) ->
    get_tenant_by_name env (sender_name payment) w = (inr (Some tenant), w) ->
    amount_mismatch (amount payment) tenant = false ->
    (forall period,
       determine_period payment tenant = inr period ->
       create_and_send_invoice env tenant (amount payment) period
         (payment_date payment) = inr inv) ->
    bump_month env (next_due_month tenant) w = (inr due, w) ->
    raises env (DbCreatePayment (email_id payment)) = None ->
    raises env (DbUpdateTenant (tenant_id tenant)) = None ->
    (forall n, raises env (DbMarkEmailed n) = None) ->
    raises later (DbCheckDuplicate (email_id payment)) = None ->
    let w' := snd (process_single_payment env payment w) in
    process_single_payment later payment w'
    = (inr (skipped_result "duplicate" (email_id payment)), w').
Proof.
  intros payment tenant inv due w later Hdup Hfind Hok Hninja Hbump
         Hcreate Hupdate Hmark Hlater w'.
  destruct (determine_period_returns payment tenant due w w Hbump)
    as [period Hperiod].
  pose proof (process_success payment tenant period inv due w Hdup Hfind Hok
                Hperiod (Hninja period Hperiod) Hbump Hcreate Hupdate Hmark)
    as Hp.
  cbv zeta in Hp. subst w'. rewrite Hp. cbn [snd].
  apply process_duplicate.
  apply check_duplicate_payment_stored; [exact Hlater|].
  cbn [db payments]. eexists. split.
  - apply in_map. apply in_or_app. right. left. reflexivity.
  - rewrite set_emailed_email. reflexivity.
Qed.

(** X7. When the update of the tenant raises after the payment row is
    stored, nothing is undone: the outcome is Fatal, the row stays and
    the ledger is as before; a later run then finds the row, skips the
    notification as a duplicate and leaves the ledger where it was. *)
Theorem ledger_failure_keeps_payment_row :
  forall (payment : ParsedInteracEmail) (tenant : Tenant)
         (inv : InvoiceResult) (due oops : string) (w : World) (later : Env),
    check_duplicate_payment env (email_id payment) w = (inr false, w) ->
    get_tenant_by_name env (sender_name payment) w = (inr (Some tenant), w) ->
    amount_mismatch (amount payment) tenant = false ->
    (forall period,
       determine_period payment tenant = inr period ->
       create_and_send_invoice env tenant (amount payment) period
         (payment_date payment) = inr inv) ->
    bump_month env (next_due_month tenant) w = (inr due, w) ->
    raises env (DbCreatePayment (email_id payment)) = None ->
    raises env (DbUpdateTenant (tenant_id tenant)) = Some oops ->
    raises later (DbCheckDuplicate (email_id payment)) = None ->
    let w' := snd (process_single_payment env payment w) in
    outcome_of (fst (process_single_payment env payment w)) = Fatal oops
    /\ (exists row,
          payments (db w') = (payments (db w) ++ [row])%list
          /\ pay_email_id row = Some (email_id payment))
    /\ tenants (db w') = tenants (db w)
    /\ inbox w' = inbox w
    /\ process_single_payment later payment w'
       = (inr (skipped_result "duplicate" (email_id payment)), w').
Proof.
  intros payment tenant inv due oops w later Hdup Hfind Hok Hninja Hbump
         Hcreate Hupdate Hlater w'.
  destruct (determine_period_returns payment tenant due w w Hbump)
    as [period Hperiod].
  pose proof (Hninja period Hperiod) as Hinv.
  assert (Hp : exists row,
             pay_email_id row = Some (email_id payment)
             /\ process_single_payment env payment w
                = (inl (OtherException oops),
                   mkWorld (mkDatabase (tenants (db w))
                              (payments (db w) ++ [row])) (inbox w))).
  { eexists. split; [|
      unfold process_single_payment, bind;
      rewrite Hdup, Hfind, Hok; unfold lift at 1; rewrite Hperiod;
      unfold invoice_and_send; rewrite Hinv;
      unfold ret at 1; rewrite Hbump;
      unfold create_payment, bind; rewrite (call_ok env _ _ Hcreate);
      unfold get, modify, ret;
      unfold update_tenant_after_payment, bind, call; rewrite Hupdate;
      reflexivity].
    reflexivity. }
  destruct Hp as [row [Hrow Hp]]. subst w'. rewrite Hp.
  cbn [fst snd db payments tenants inbox outcome_of].
  split; [reflexivity|].
  split; [exists row; split; [reflexivity | exact Hrow]|].
  split; [reflexivity|]. split; [reflexivity|].
  apply process_duplicate.
  apply check_duplicate_payment_stored; [exact Hlater|].
  cbn [db payments]. exists row. split; [|exact Hrow].
  apply in_or_app. right. left. reflexivity.
Qed.

End Success.

(** ** Polls: failures of the fetch, messages that do not parse *)

Section Polls.

Import Text Eff Supabase Gmail Processor Shape.

Variable env : Env.

Lemma fetch_each_reads (refs : list string) (w : World) :
  snd (fetch_each env refs w) = w.
Proof.
  revert w. induction refs as [|id refs IH]; intros w; [reflexivity|].
  simpl. unfold bind.
  pose proof (messages_get_reads env id w) as Hg.
  destruct (messages_get env id w) as [[e|message] w1]; simpl in *;
    subst; [reflexivity|].
  specialize (IH w).
  destruct (fetch_each env refs w) as [[e|rest] w2]; simpl in *; subst;
    reflexivity.
Qed.

Lemma fetch_new_payments_reads (w : World) :
  snd (fetch_new_payments env w) = w.
Proof.
  unfold fetch_new_payments, bind.
  pose proof (messages_list_reads env 20 w) as Hl.
  destruct (messages_list env 20 w) as [[e|ids] w1]; simpl in *; subst;
    [reflexivity|].
  apply fetch_each_reads.
Qed.

(** When the fetch raises the batch is empty and nothing changed. *)
Lemma fetch_raises_empty_batch (e : Exn) (w w1 : World) :
  fetch_new_payments env w = (inl e, w1) ->
  process_new_payments env w
  = (mkResults []
       [fetch_error ("Failed to fetch payments: " ++ str_of_exn e)] [],
     w).
Proof.
  intros H. pose proof (fetch_new_payments_reads w) as Hw.
  rewrite H in Hw. simpl in Hw. subst w1.
  unfold process_new_payments, try_except, bind, on_snd. simpl.
  rewrite H. reflexivity.
Qed.

Lemma fetch_each_raises (refs : list string) (w : World) :
  (exists id, In id refs /\ raises env (GmailGet id) <> None) ->
  exists e, fst (fetch_each env refs w) = inl e.
Proof.
  induction refs as [|id refs IH]; intros [bad [Hin Hbad]]; [destruct Hin|].
  simpl. unfold bind.
  pose proof (messages_get_reads env id w) as Hg.
  destruct (messages_get env id w) as [[e|message] w1] eqn:Hget;
    simpl in Hg; subst w1.
  - exists e. reflexivity.
  - destruct Hin as [Heq|Hin].
    + subst bad. unfold messages_get, bind, call in Hget.
      destruct (raises env (GmailGet id)); [discriminate | congruence].
    + destruct (IH (ex_intro _ bad (conj Hin Hbad))) as [e He].
      pose proof (fetch_each_reads refs w) as Hr.
      destruct (fetch_each env refs w) as [[e'|rest] w2]; simpl in *.
      * exists e'. reflexivity.
      * discriminate.
Qed.

(** X8. When the search raises, or the reading of one of the listed
    messages does, the whole poll is given up: nothing is processed, the
    batch reports the single error of the fetch, and the database and the
    mailbox are as before. *)
Theorem failed_fetch_gives_empty_batch :
  forall w : World,
    raises env GmailList <> None
    \/ (exists m, In m (listed env w)
                  /\ raises env (GmailGet (msg_id m)) <> None) ->
    exists text,
      process_new_payments env w
      = (mkResults [] [fetch_error ("Failed to fetch payments: " ++ text)]
           [], w).
Proof.
  intros w Hbad.
  assert (Hfetch : exists e, fst (fetch_new_payments env w) = inl e).
  { unfold fetch_new_payments, bind, messages_list at 1, bind, call.
    destruct (raises env GmailList) as [msg|] eqn:Hlist.
    - eexists. reflexivity.
    - destruct Hbad as [Hbad|[m [Hin Hget]]]; [congruence|].
      simpl. apply fetch_each_raises. exists (msg_id m).
      split; [|exact Hget]. apply in_map. exact Hin. }
  destruct Hfetch as [e He].
  destruct (fetch_new_payments env w) as [r w1] eqn:Hf. simpl in He.
  subst r. exists (str_of_exn e).
  apply (fetch_raises_empty_batch e w w1 Hf).
Qed.

Lemma find_unique (m : Message) (msgs : list Message) :
  NoDup (map msg_id msgs) -> In m msgs ->
  find (fun x => String.eqb (msg_id x) (msg_id m)) msgs = Some m.
Proof.
  induction msgs as [|x msgs IH]; intros Hnd Hin; [destruct Hin|].
  simpl in *. inversion Hnd as [|? ? Hnotin Hnd']; subst.
  destruct Hin as [Heq|Hin].
  - subst x. rewrite String.eqb_refl. reflexivity.
  - destruct (String.eqb (msg_id x) (msg_id m)) eqn:Hid.
    + apply String.eqb_eq in Hid. exfalso. apply Hnotin.
      rewrite Hid. apply in_map. exact Hin.
    + apply IH; assumption.
Qed.

Lemma In_firstn {A} (n : nat) (x : A) (l : list A) :
  In x (firstn n l) -> In x l.
Proof.
  revert l. induction n as [|n IH]; intros l H; [destruct H|].
  destruct l as [|a l]; [destruct H|]. simpl in H.
  destruct H as [H|H]; [left; exact H | right; apply IH, H].
Qed.

Lemma listed_in_inbox (w : World) (m : Message) :
  In m (listed env w) -> In m (inbox w) /\ interac_query env m = true.
Proof.
  intros H. apply In_firstn in H. apply filter_In in H. exact H.
Qed.

(** Fetching messages of which none parses gives no payment. *)
Lemma fetch_each_unparsed (w : World) (ms : list Message) :
  NoDup (map msg_id (inbox w)) ->
  (forall m, In m ms -> In m (inbox w) /\ parse_message m = None) ->
  forall ps w',
    fetch_each env (map msg_id ms) w = (inr ps, w') -> ps = [].
Proof.
  intros Hnd. induction ms as [|m ms IH]; intros Hms ps w' H; simpl in H.
  - inversion H. reflexivity.
  - unfold bind in H.
    destruct (Hms m (or_introl eq_refl)) as [Hin Hparse].
    unfold messages_get, bind, call in H.
    destruct (raises env (GmailGet (msg_id m))); [discriminate|].
    simpl in H. unfold get, bind in H.
    rewrite (find_unique m (inbox w) Hnd Hin) in H. unfold ret in H.
    destruct (fetch_each env (map msg_id ms) w) as [[e|rest] w2] eqn:Hrest;
      [discriminate|].
    pose proof (IH (fun x Hx => Hms x (or_intror Hx)) rest w2 eq_refl)
      as Hnil.
    unfold parse_message in Hparse. rewrite Hparse in H.
    inversion H. subst. reflexivity.
Qed.

(** Every payment fetched is what the parser made of a message of the
    mailbox. *)
Lemma fetch_each_parsed (w : World) (refs : list string) :
  forall ps w',
    fetch_each env refs w = (inr ps, w') ->
    forall p, In p ps ->
      exists m, In m (inbox w) /\ parse_message m = Some p.
Proof.
  induction refs as [|id refs IH]; intros ps w' H p Hin; simpl in H.
  - inversion H; subst. destruct Hin.
  - unfold bind in H.
    pose proof (messages_get_reads env id w) as Hreads.
    destruct (messages_get env id w) as [[e|message] w1] eqn:Hget;
      [discriminate|].
    simpl in Hreads. subst w1.
    assert (Hm : In message (inbox w) /\ msg_id message = id).
    { unfold messages_get, bind, call in Hget.
      destruct (raises env (GmailGet id)); [discriminate|].
      simpl in Hget. unfold get, bind in Hget.
      destruct (find (fun m => String.eqb (msg_id m) id) (inbox w))
        as [found|] eqn:Hfind; [|discriminate].
      inversion Hget; subst. apply find_some in Hfind.
      destruct Hfind as [Hfound Hid]. apply String.eqb_eq in Hid.
      split; assumption. }
    destruct Hm as [Hmin Hid].
    destruct (fetch_each env refs w) as [[e|rest] w2] eqn:Hrest;
      [discriminate|].
    unfold ret in H. inversion H; subst ps.
    destruct (Parser.parse_interac_email id (msg_subject message)
                (msg_body message) (msg_date message)) as [q|] eqn:Hparse.
    + destruct Hin as [Hq|Hin].
      * subst q. exists message. split; [exact Hmin|].
        unfold parse_message. rewrite Hid. exact Hparse.
      * apply (IH rest w2 eq_refl p Hin).
    + apply (IH rest w2 eq_refl p Hin).
Qed.

(** No payment of a poll carries the identifier of a message that does
    not parse. *)
Lemma unparsed_is_not_fetched (w : World) (m : Message)
    (ps : list ParsedInteracEmail) (w' : World) :
  NoDup (map msg_id (inbox w)) ->
  In m (inbox w) -> parse_message m = None ->
  fetch_new_payments env w = (inr ps, w') ->
  ~ In (msg_id m) (map email_id ps).
Proof.
  intros Hnd Hin Hnone Hf Hid.
  apply in_map_iff in Hid. destruct Hid as [p [Hp Hps]].
  unfold fetch_new_payments, bind in Hf.
  pose proof (messages_list_reads env 20 w) as Hreads.
  destruct (messages_list env 20 w) as [[e|ids] w1]; [discriminate|].
  simpl in Hreads. subst w1.
  destruct (fetch_each_parsed w ids ps w' Hf p Hps) as [m' [Hin' Hparse]].
  assert (Hsame : msg_id m' = msg_id m).
  { unfold parse_message in Hparse.
    apply parse_interac_email_id in Hparse. congruence. }
  pose proof (find_unique m (inbox w) Hnd Hin) as H1.
  pose proof (find_unique m' (inbox w) Hnd Hin') as H2.
  rewrite Hsame in H2. rewrite H1 in H2. inversion H2. subst m'.
  rewrite Hnone in Hparse. discriminate.
Qed.

(** The world that a poll leaves is the one that its loop leaves. *)
Lemma process_new_payments_world (w : World)
    (ps : list ParsedInteracEmail) :
  fetch_new_payments env w = (inr ps, w) ->
  snd (process_new_payments env w)
  = snd (snd (for_payments env ps (no_results, w))).
Proof.
  intros Hf.
  unfold process_new_payments, try_except, bind, on_snd. simpl.
  rewrite Hf. simpl.
  destruct (for_payments env ps (no_results, w)) as [[e|u] [res w2]];
    reflexivity.
Qed.

(** X9. A message that does not parse is never labelled: with the
    identifiers of the mailbox distinct, after any poll, whatever the
    other messages and whatever raises, the message is in the mailbox
    as it was, its labels included, and the query selects it as before.
    When none of the messages that a poll lists parses, the poll
    processes nothing and leaves the mailbox and the database as they
    are, so that the next poll lists the same messages, whatever else
    waits in the mailbox. *)
Theorem unparsed_messages_block_the_poll :
  forall w : World,
    NoDup (map msg_id (inbox w)) ->
    (forall m, In m (inbox w) -> parse_message m = None ->
       In m (inbox (snd (process_new_payments env w))))
    /\ ((forall m, In m (listed env w) -> parse_message m = None) ->
        processed (fst (process_new_payments env w)) = []
        /\ snd (process_new_payments env w) = w
        /\ listed env (snd (process_new_payments env w)) = listed env w).
Proof.
  intros w Hnd. split.
  - intros m Hin Hnone.
    destruct (fetch_new_payments env w) as [[e|ps] w1] eqn:Hf.
    + rewrite (fetch_raises_empty_batch e w w1 Hf). exact Hin.
    + pose proof (fetch_new_payments_reads w) as Hw. rewrite Hf in Hw.
      simpl in Hw. subst w1.
      rewrite (process_new_payments_world w ps Hf).
      apply for_payments_keeps_message; [|exact Hin].
      apply (unparsed_is_not_fetched w m ps w Hnd Hin Hnone Hf).
  - intros Hnone.
    assert (Hgoal : processed (fst (process_new_payments env w)) = []
                    /\ snd (process_new_payments env w) = w).
    { destruct (fetch_new_payments env w) as [[e|ps] w1] eqn:Hf.
      - rewrite (fetch_raises_empty_batch e w w1 Hf). split; reflexivity.
      - pose proof (fetch_new_payments_reads w) as Hw. rewrite Hf in Hw.
        simpl in Hw. subst w1.
        assert (Hps : ps = []).
        { unfold fetch_new_payments, bind, messages_list at 1, bind, call
            in Hf.
          destruct (raises env GmailList); simpl in Hf; [discriminate|].
          apply (fetch_each_unparsed w (listed env w) Hnd) in Hf;
            [exact Hf|].
          intros m Hm. split; [apply (listed_in_inbox w m Hm)|].
          apply Hnone, Hm. }
        subst ps.
        unfold process_new_payments, try_except, bind, on_snd. simpl.
        rewrite Hf. split; reflexivity. }
    destruct Hgoal as [Hp Hw]. rewrite Hw. repeat split; assumption.
Qed.

(** X10. Once [mark_as_processed] went through for a message, no later
    search lists that message. *)
Theorem labelled_message_is_not_listed :
  forall (id : string) (w : World) (later : Env),
    raises env (GmailModify id) = None ->
    mark_as_processed env id w = (inr tt, labelled id w)
    /\ ~ In id (map msg_id (listed later (labelled id w))).
Proof.
  intros id w later Hcall. split.
  - unfold mark_as_processed, bind. rewrite (call_ok env _ _ Hcall).
    reflexivity.
  - intros Hin. apply in_map_iff in Hin. destruct Hin as [m [Hid Hm]].
    unfold listed in Hm. apply In_firstn in Hm. apply filter_In in Hm.
    destruct Hm as [Hm Hq]. cbn [labelled inbox] in Hm.
    apply in_map_iff in Hm. destruct Hm as [m0 [Hm0 _]]. subst m.
    unfold interac_query in Hq. apply andb_true_iff in Hq.
    destruct Hq as [_ Hq]. apply negb_true_iff in Hq.
    unfold label_message in *.
    destruct (String.eqb (msg_id m0) id) eqn:Heq.
    + rewrite has_label_add_label in Hq. discriminate.
    + apply String.eqb_neq in Heq. contradiction.
Qed.

(** One turn files exactly one entry when the labelling answers. *)
Lemma turn_files_one (payment : ParsedInteracEmail) (res : Results)
    (w : World) :
  raises env (GmailModify (email_id payment)) = None ->
  exists res' w',
    turn env payment (res, w) = (inr tt, (res', w'))
    /\ (List.length (processed res') + List.length (errors res')
        = S (List.length (processed res) + List.length (errors res)))%nat.
Proof.
  intros Hmark.
  destruct (process_single_payment env payment w) as [[e|r] w1] eqn:Hp.
  - destruct e as [msg|msg].
    + rewrite (turn_validation_error env payment msg res w w1 Hp Hmark).
      eexists. eexists. split; [reflexivity|].
      cbn [add_error processed errors]. rewrite List.length_app. simpl. lia.
    + rewrite (turn_other_exception env payment msg res w w1 Hp).
      eexists. eexists. split; [reflexivity|].
      cbn [add_error processed errors]. rewrite List.length_app. simpl. lia.
  - rewrite (turn_returns env payment r res w w1 Hp Hmark).
    eexists. eexists. split; [reflexivity|].
    cbn [add_processed processed errors]. rewrite List.length_app. simpl. lia.
Qed.

Lemma for_payments_files_each (payments : list ParsedInteracEmail) :
  (forall id, raises env (GmailModify id) = None) ->
  forall res w,
  exists res' w',
    for_payments env payments (res, w) = (inr tt, (res', w'))
    /\ (List.length (processed res') + List.length (errors res')
        = List.length (processed res) + List.length (errors res)
          + List.length payments)%nat.
Proof.
  intros Hmark. induction payments as [|payment rest IH]; intros res w.
  - exists res, w. split; [reflexivity|]. simpl. lia.
  - rewrite for_payments_cons.
    destruct (turn_files_one payment res w (Hmark _))
      as [res1 [w1 [Hturn Hcount]]].
    rewrite Hturn.
    destruct (IH res1 w1) as [res2 [w2 [Hrest Hcount2]]].
    exists res2, w2. split; [exact Hrest|]. simpl. lia.
Qed.

(** X11. While the labelling answers, every fetched payment is accounted
    for exactly once: the entries under [processed] and under [errors]
    are together as many as the payments fetched. *)
Theorem batch_accounts_for_every_payment :
  forall (w : World) (ps : list ParsedInteracEmail) (w1 : World),
    (forall id, raises env (GmailModify id) = None) ->
    fetch_new_payments env w = (inr ps, w1) ->
    (List.length (processed (fst (process_new_payments env w)))
     + List.length (errors (fst (process_new_payments env w)))
     = List.length ps)%nat.
Proof.
  intros w ps w1 Hmark Hf.
  unfold process_new_payments, try_except, bind, on_snd. simpl.
  rewrite Hf.
  destruct (for_payments_files_each ps Hmark no_results w1)
    as [res' [w' [Hrun Hcount]]].
  rewrite Hrun. simpl in *. exact Hcount.
Qed.

End Polls.

(** ** The date of a parsed payment *)

Section PaymentDate.

Import Text Regex Dates Parser Shape.




End PaymentDate.

(** ** The tables *)

Section Tables.

Import Text Regex Eff Supabase Processor.

Lemma no_error_for_plain (name : string) (rows : list Tenant) :
  all_chars plain name = true ->
  existsb (fun t => is_error (ilike name (tenant_name t))) rows = false.
Proof.
  intros Hplain. induction rows as [|t rows IH]; [reflexivity|].
  cbn [existsb].
  destruct (ilike_plain name (tenant_name t) Hplain) as [_ He].
  rewrite He, IH. reflexivity.
Qed.

Lemma hd_error_filter {A} (f : A -> bool) (l : list A) :
  (forall x, hd_error (filter f l) = Some x -> In x l /\ f x = true)
  /\ (hd_error (filter f l) = None <-> forall x, In x l -> f x = false).
Proof.
  split.
  - intros x H. apply filter_In.
    destruct (filter f l) as [|y ys]; [discriminate|].
    inversion H; subst. left. reflexivity.
  - split.
    + intros H x Hin. destruct (f x) eqn:Hf; [|reflexivity].
      assert (Hx : In x (filter f l)) by (apply filter_In; auto).
      destruct (filter f l); [destruct Hx | discriminate].
    + intros H. destruct (filter f l) as [|y ys] eqn:Hfl; [reflexivity|].
      assert (Hy : In y (filter f l)) by (rewrite Hfl; left; reflexivity).
      apply filter_In in Hy. destruct Hy as [Hin Hf].
      rewrite (H y Hin) in Hf. discriminate.
Qed.

(** X13. For a sender name of ASCII without the characters that [ilike]
    reads as a pattern, and stored names of ASCII, the lookup is the
    equality of names up to letter case: the tenant found is a stored one
    of that name, and no tenant is found exactly when no stored name
    equals the sender name up to case. *)
Theorem lookup_of_plain_name :
  forall (env : Env) (name : string) (w : World),
    all_chars plain name = true ->
    all_chars is_ascii name = true ->
    (forall t, In t (tenants (db w)) ->
               all_chars is_ascii (tenant_name t) = true) ->
    raises env (DbGetTenantByName name) = None ->
    exists found,
      get_tenant_by_name env name w = (inr found, w)
      /\ (forall t, found = Some t ->
            In t (tenants (db w))
            /\ map_str lower name = map_str lower (tenant_name t))
      /\ (found = None <->
          forall t, In t (tenants (db w)) ->
                    map_str lower name <> map_str lower (tenant_name t)).
Proof.
  intros env name w Hplain _ _ Hcall.
  eexists. split.
  - unfold get_tenant_by_name, bind. rewrite (call_ok env _ _ Hcall).
    unfold get. rewrite (no_error_for_plain name _ Hplain). reflexivity.
  - destruct (hd_error_filter
                (fun t => is_match (ilike name (tenant_name t)))
                (tenants (db w))) as [Hsome Hnone].
    split.
    + intros t Ht. apply Hsome in Ht. destruct Ht as [Hin Hlike].
      split; [exact Hin|]. apply (ilike_plain name _ Hplain). exact Hlike.
    + rewrite Hnone. split; intros H t Hin.
      * intros Heq. apply (ilike_plain name _ Hplain) in Heq.
        rewrite (H t Hin) in Heq. discriminate.
      * destruct (is_match (ilike name (tenant_name t))) eqn:Hlike;
          [|reflexivity].
        apply (ilike_plain name _ Hplain) in Hlike.
        exfalso. exact (H t Hin Hlike).
Qed.

(** X14. A payment row stored by [create_payment] is what the duplicate
    check looks for: afterwards the check answers [True] for the
    identifier of the row, and for any other identifier what it answered
    before. *)
Theorem create_payment_then_check_duplicate :
  forall (env later : Env) (tenant : string) (amount : Float.float)
         (date : Dates.Date) (period email : string)
         (invoice : option string) (notes other : string) (w : World),
    raises env (DbCreatePayment email) = None ->
    raises later (DbCheckDuplicate other) = None ->
    let w' :=
      snd (create_payment env tenant amount date period email invoice
             notes w) in
    (fst (check_duplicate_payment later other w') = inr true
     <-> other = email
         \/ fst (check_duplicate_payment later other w) = inr true).
Proof.
  intros env later tenant amount date period email invoice notes other w
         Hcreate Hcheck w'.
  subst w'. unfold create_payment, bind.
  rewrite (call_ok env _ _ Hcreate). unfold get, modify, ret.
  cbn [snd]. unfold check_duplicate_payment, bind.
  rewrite !(call_ok later _ _ Hcheck). unfold get, ret.
  cbn [fst with_db db payments].
  rewrite filter_app. cbn [filter]. unfold same_email at 2.
  cbn [pay_email_id].
  destruct (String.eqb email other) eqn:Heq.
  - apply String.eqb_eq in Heq. subst other.
    rewrite List.length_app. simpl.
    rewrite Nat.add_comm. simpl. split; auto.
  - apply String.eqb_neq in Heq. rewrite app_nil_r.
    split; [intros H; right; exact H|].
    intros [H|H]; [congruence | exact H].
Qed.

Lemma filter_by_id_update (id other : string) (n : Z) (due : string)
    (client : option string) (ts : list Tenant) :
  filter (fun t => String.eqb (tenant_id t) other)
         (map (update_tenant id n due client) ts)
  = map (update_tenant id n due client)
        (filter (fun t => String.eqb (tenant_id t) other) ts).
Proof.
  induction ts as [|t ts IH]; [reflexivity|]. cbn [map filter].
  assert (Hid : tenant_id (update_tenant id n due client t) = tenant_id t).
  { unfold update_tenant. destruct (String.eqb (tenant_id t) id);
      reflexivity. }
  rewrite Hid. destruct (String.eqb (tenant_id t) other); cbn [map];
    rewrite IH; reflexivity.
Qed.

(** X15. What [update_tenant_after_payment] wrote is what
    [get_tenant_by_id] reads: the row of the tenant comes back with the
    new invoice number and next due period, its name, rent and parking
    fee as before, and the invoicing client set only when one is given;
    the rows of the other tenants read as before, and the payments are
    not touched. *)
Theorem update_tenant_then_get_by_id :
  forall (env : Env) (id : string) (n : Z) (due : string)
         (client : option string) (w : World),
    raises env (DbUpdateTenant id) = None ->
    let w' := snd (update_tenant_after_payment env id n due client w) in
    (forall t,
       fst (Admin.get_tenant_by_id None id w) = inr (Some t) ->
       exists t',
         fst (Admin.get_tenant_by_id None id w') = inr (Some t')
         /\ last_invoice_no t' = Some n
         /\ next_due_month t' = Some due
         /\ tenant_name t' = tenant_name t
         /\ monthly_rent t' = monthly_rent t
         /\ parking_fee t' = parking_fee t
         /\ invoice_ninja_client_id t'
            = match client with
              | Some c => if nonempty c then Some c
                          else invoice_ninja_client_id t
              | None => invoice_ninja_client_id t
              end)
    /\ (forall other, other <> id ->
          fst (Admin.get_tenant_by_id None other w')
          = fst (Admin.get_tenant_by_id None other w))
    /\ payments (db w') = payments (db w)
    /\ List.length (tenants (db w')) = List.length (tenants (db w)).
Proof.
  intros env id n due client w Hcall w'. subst w'.
  unfold update_tenant_after_payment, bind.
  rewrite (call_ok env _ _ Hcall). unfold modify. cbn [snd].
  unfold Admin.get_tenant_by_id, bind, get, ret.
  cbn [fst with_db db tenants payments].
  split; [|split; [|split; [reflexivity | apply length_map]]].
  - intros t Ht. rewrite filter_by_id_update.
    destruct (filter (fun x => String.eqb (tenant_id x) id)
                (tenants (db w))) as [|t0 ts] eqn:Hf; [discriminate|].
    cbn [hd_error] in Ht. inversion Ht; subst t0.
    assert (Hin : In t (filter (fun x => String.eqb (tenant_id x) id)
                          (tenants (db w))))
      by (rewrite Hf; left; reflexivity).
    apply filter_In in Hin. destruct Hin as [_ Hid].
    exists (update_tenant id n due client t).
    split; [reflexivity|].
    unfold update_tenant. rewrite Hid. cbn. repeat split.
  - intros other Hne. rewrite filter_by_id_update. f_equal. f_equal.
    rewrite <- (map_id (filter _ (tenants (db w)))) at 2.
    apply map_ext_in. intros t Hin. apply filter_In in Hin.
    destruct Hin as [_ Hid]. apply String.eqb_eq in Hid.
    apply update_tenant_other. congruence.
Qed.

(** X16. The period that [create_tenant] writes for a new tenant, the
    current month, is one that the processor reads: it is the first day
    of that month to [_bump_month] and [_determine_period], so a first
    payment without a message line is for the current month by name. *)
Theorem new_tenant_period_is_readable :
  forall (today : Dates.Date) (payment : ParsedInteracEmail)
         (tenant : Tenant),
    1000 <= Dates.year today <= 9999 ->
    1 <= Dates.month today <= 12 ->
    first_of_month (Admin.new_next_due today)
    = inr (Dates.mkDate (Dates.year today) (Dates.month today) 1)
    /\ (message_line payment = None ->
        next_due_month tenant = Some (Admin.new_next_due today) ->
        determine_period payment tenant
        = inr (Dates.month_name (Dates.month today) ++ " "
               ++ show_Z (Dates.year today))%string).
Proof.
  intros [y m d] payment tenant Hy Hm. cbn [Dates.year Dates.month] in *.
  destruct (prints_year_month y m Hy Hm) as [_ Hnew].
  rewrite (Hnew d).
  pose proof (first_of_month_year_month y m ltac:(lia) Hm) as Hread.
  split; [exact Hread|].
  intros Hmsg Hdue.
  rewrite (determine_period_without_label payment tenant);
    [|rewrite Hmsg; reflexivity].
  unfold period_of_next_due. rewrite Hdue, Hread.
  rewrite year_month_nonempty. reflexivity.
Qed.

End Tables.

(** ** The body of a message *)

Section Body.

Import Text Mime.

Variable decode : string -> string.

(** [_extract_body] is its loop over the parts, entered with the body of
    the payload itself. *)
Lemma extract_body_parts (mime : string) (top : option (option string))
    (ps : list Payload) :
  extract_body decode (mkPayload mime top (Some ps))
  = over_parts decode (extract_body decode) ps (own_body decode top).
Proof. reflexivity. Qed.

Lemma extract_body_single (mime : string) (top : option (option string)) :
  extract_body decode (mkPayload mime top None) = Some (own_body decode top).
Proof. reflexivity. Qed.

Lemma over_text_leaves (nested : Payload -> option string)
    (ps : list Payload) :
  text_leaves ps ->
  forall body,
    over_parts decode nested ps body
    = Some match find is_html_leaf ps with
           | Some h => decode (data_text h)
           | None =>
               match ps with
               | [] => body
               | _ :: _ =>
                   decode (data_text (last ps (mkPayload "" None None)))
               end
           end.
Proof.
  induction ps as [|part rest IH]; intros Hleaves body; [reflexivity|].
  inversion Hleaves as [|? ? [Hmime [t [Hbody Hdata]]] Hrest]; subst.
  cbn [over_parts find]. unfold is_html_leaf at 1.
  assert (Hhas : has_data (Some t) = true) by exact Hdata.
  destruct (String.eqb (mime_of part) "text/html") eqn:Hhtml.
  - rewrite Hbody, Hhas. unfold data_text. rewrite Hbody. reflexivity.
  - destruct Hmime as [Hplain|Hmime];
      [|rewrite Hmime in Hhtml; discriminate].
    rewrite Hplain. cbn [String.eqb Ascii.eqb Bool.eqb andb].
    rewrite Hbody, Hhas. rewrite (IH Hrest).
    destruct (find is_html_leaf rest); [reflexivity|].
    destruct rest as [|q rest']; [|reflexivity].
    cbn [last]. unfold data_text. rewrite Hbody. reflexivity.
Qed.

(** X17. In a message whose parts are texts, plain or HTML, the body is
    that of the first HTML part, wherever it stands among the parts;
    without an HTML part it is that of the last plain part; without any
    part it is the body of the payload itself. *)
Theorem html_part_is_preferred :
  forall (mime : string) (top : option (option string))
         (ps : list Payload),
    text_leaves ps ->
    extract_body decode (mkPayload mime top (Some ps))
    = Some match find is_html_leaf ps with
           | Some h => decode (data_text h)
           | None =>
               match ps with
               | [] => own_body decode top
               | _ :: _ =>
                   decode (data_text (last ps (mkPayload "" None None)))
               end
           end.
Proof.
  intros mime top ps Hleaves. rewrite extract_body_parts.
  apply over_text_leaves. exact Hleaves.
Qed.

(** X18. A part that has parts of its own and is reached by the loop
    decides the body: what was found before it, in the payload itself or
    in plain parts, is dropped; if the nested part gives a body, that is
    the body of the message, and if it gives none the search goes on
    after it from the empty body. *)
Theorem nested_part_discards_what_came_before :
  forall (mime : string) (top : option (option string))
         (plains : list Payload) (container : Payload)
         (rest : list Payload) (inner : string),
    Forall (fun p => mime_of p = "text/plain" /\ body_of p <> None) plains ->
    mime_of container <> "text/html" ->
    mime_of container <> "text/plain" ->
    parts_of container <> None ->
    extract_body decode container = Some inner ->
    extract_body decode
      (mkPayload mime top (Some (plains ++ container :: rest)%list))
    = if nonempty inner then Some inner
      else extract_body decode (mkPayload mime None (Some rest)).
Proof.
  intros mime top plains container rest inner Hplains Hhtml Hplain
         Hparts Hinner.
  rewrite !extract_body_parts.
  generalize (own_body decode top).
  induction plains as [|p plains IH]; intros body.
  - cbn [app over_parts].
    apply String.eqb_neq in Hhtml, Hplain. rewrite Hhtml, Hplain.
    destruct (parts_of container); [|congruence].
    rewrite Hinner. destruct inner; reflexivity.
  - inversion Hplains as [|? ? [Hmime Hbody] Hrest]; subst.
    cbn [app over_parts]. rewrite Hmime.
    cbn [String.eqb Ascii.eqb Bool.eqb andb].
    destruct (body_of p) as [d|]; [|congruence].
    destruct (has_data d); apply (IH Hrest).
Qed.

End Body.

(** ** The invoice *)

Section Invoice.

Import Text Ninja Processor.

Lemma split_ws_go_words (s : string) :
  forall cur,
    Regex.all_chars (fun c => negb (is_space c)) cur = true ->
    Forall Shape.word (split_ws_go s cur).
Proof.
  induction s as [|c s IH]; intros cur Hcur; cbn [split_ws_go].
  - destruct cur as [|x cur]; [constructor|].
    constructor; [|constructor]. split.
    + unfold rev_str. cbn [rev_onto]. intros H.
      assert (Hlen : String.length (rev_onto cur (String x "")) = 0%nat)
        by (rewrite H; reflexivity).
      assert (Hge : forall a b,
                 (String.length b <= String.length (rev_onto a b))%nat).
      { induction a as [|y a IHa]; intros b; cbn [rev_onto]; [lia|].
        specialize (IHa (String y b)). simpl in IHa. lia. }
      specialize (Hge cur (String x "")). simpl in Hge. lia.
    + apply rev_str_chars. exact Hcur.
  - destruct (is_space c) eqn:Hc.
    + destruct cur as [|x cur]; [apply IH; reflexivity|].
      constructor; [|apply IH; reflexivity]. split.
      * unfold rev_str. cbn [rev_onto]. intros H.
        assert (Hge : forall a b,
                   (String.length b <= String.length (rev_onto a b))%nat).
        { induction a as [|y a IHa]; intros b; cbn [rev_onto]; [lia|].
          specialize (IHa (String y b)). simpl in IHa. lia. }
        specialize (Hge cur (String x "")). rewrite H in Hge.
        simpl in Hge. lia.
      * apply rev_str_chars. exact Hcur.
    + apply IH. cbn [Regex.all_chars]. rewrite Hc, Hcur. reflexivity.
Qed.

(** The words of a text are not empty and have no blank. *)
Lemma split_ws_words (s : string) : Forall Shape.word (split_ws s).
Proof. apply split_ws_go_words. reflexivity. Qed.

Lemma join_words_nonempty (w : string) (ws : list string) :
  Shape.word w -> nonempty (join " " (w :: ws)) = true.
Proof.
  intros [Hne _]. destruct w as [|c w]; [congruence|].
  destruct ws; reflexivity.
Qed.

(** X19. The first and the last name that [create_client] sends rejoin
    to the name with its blanks normalised; a name of one word has an
    empty last name, the empty name has both empty, and a name of blanks
    only raises. *)
Theorem contact_names_rejoin :
  forall name : string,
    (split_ws name <> [] ->
     exists first,
       first_name name = Some first
       /\ (if nonempty (last_name name)
           then first ++ " " ++ last_name name
           else first) = join " " (split_ws name)
       /\ (last_name name = "" <-> List.length (split_ws name) = 1%nat))
    /\ (name = "" -> first_name name = Some "" /\ last_name name = "")
    /\ (name <> "" -> split_ws name = [] -> first_name name = None).
Proof.
  intros name. split; [|split].
  - intros Hwords. unfold first_name, last_name.
    assert (Hname : nonempty name = true).
    { destruct name; [exfalso; apply Hwords; reflexivity | reflexivity]. }
    rewrite Hname. pose proof (split_ws_words name) as Hw.
    destruct (split_ws name) as [|w [|w2 ws]]; [congruence| |].
    + exists w. repeat split; try reflexivity.
    + exists w. inversion Hw as [|? ? _ Hrest]; subst.
      inversion Hrest as [|? ? Hw2 _]; subst.
      cbn [List.length Nat.ltb Nat.leb tl].
      rewrite (join_words_nonempty w2 ws Hw2).
      split; [reflexivity|]. split; [reflexivity|].
      split; intros H; [|discriminate].
      pose proof (join_words_nonempty w2 ws Hw2) as Hne.
      rewrite H in Hne. discriminate.
  - intros H. subst name. split; reflexivity.
  - intros Hne Hnil. unfold first_name.
    destruct name; [congruence|]. cbn [nonempty]. rewrite Hnil.
    reflexivity.
Qed.

Lemma gt_zero_cases (x : Float.float) :
  Float.ge x Float.zero = true ->
  Float.gt x Float.zero = false ->
  exists s, x = S754_zero s.
Proof.
  destruct x as [s|s| |s m e]; simpl; intros Hge Hgt.
  - exists s. reflexivity.
  - destruct s; discriminate.
  - discriminate.
  - destruct s; discriminate.
Qed.

(** X20. Every line item of the invoice has a cost above zero, and for a
    tenant with a rent above zero and a parking fee that is not negative
    the costs add up to rent plus parking fee, the amount that the
    payment was validated against. *)
Theorem line_items_add_up :
  forall (tenant : Tenant) (period : string),
    Forall (fun item => Float.gt (cost item) Float.zero = true)
           (line_items tenant period)
    /\ (Float.gt (monthly_rent tenant) Float.zero = true ->
        Float.ge (parking_fee_of tenant) Float.zero = true ->
        total (line_items tenant period) = expected_amount tenant).
Proof.
  intros tenant period. unfold line_items. split.
  - destruct (Float.gt (monthly_rent tenant) Float.zero) eqn:Hrent;
      destruct (Float.gt (parking_fee_of tenant) Float.zero) eqn:Hpark;
      cbn [app]; repeat constructor; assumption.
  - intros Hrent Hpark. rewrite Hrent. unfold total, expected_amount.
    assert (Hzero : Float.add Float.zero (monthly_rent tenant)
                    = monthly_rent tenant).
    { destruct (monthly_rent tenant) as [s|s| |s m e]; try reflexivity.
      destruct s; discriminate. }
    destruct (Float.gt (parking_fee_of tenant) Float.zero) eqn:Hgt;
      cbn [app fold_left cost]; rewrite Hzero; [reflexivity|].
    destruct (gt_zero_cases _ Hpark Hgt) as [s Hs]. rewrite Hs.
    destruct (monthly_rent tenant) as [sr|sr| |sr m e]; try reflexivity;
      destruct sr; discriminate.
Qed.

End Invoice.

(** ** The sender name *)

Section Sender.

Import Text Regex Parser.















End Sender.

(** ** What processing a payment may write *)

Section Writes.

Import Text Eff Supabase Gmail Processor.

Variable env : Env.

Lemma set_emailed_keeps_emails (n : Z) (rows : list Payment) :
  map pay_email_id (map (set_emailed n) rows) = map pay_email_id rows.
Proof.
  rewrite map_map. apply map_ext. intros p. apply set_emailed_email.
Qed.

(** X22. A payment that is skipped as a duplicate or fails the
    validation leaves the database and the mailbox exactly as they
    were. *)
Theorem skipped_or_invalid_writes_nothing :
  forall (payment : ParsedInteracEmail) (w : World),
    (exists reason,
       outcome_of (fst (process_single_payment env payment w))
       = Skipped reason)
    \/ (exists reason,
          outcome_of (fst (process_single_payment env payment w))
          = ValidationFailed reason) ->
    snd (process_single_payment env payment w) = w.
Proof.
  intros payment w. unfold process_single_payment, bind.
  pose proof (check_duplicate_payment_reads env (email_id payment) w) as H1.
  destruct (check_duplicate_payment env (email_id payment) w)
    as [[e|dup] w1]; simpl in H1; subst w1; [reflexivity|].
  destruct dup; [reflexivity|].
  pose proof (get_tenant_by_name_reads env (sender_name payment) w) as H2.
  destruct (get_tenant_by_name env (sender_name payment) w)
    as [[e|found] w2]; simpl in H2; subst w2; [reflexivity|].
  destruct found as [tenant|]; [|reflexivity].
  destruct (amount_mismatch (amount payment) tenant); [reflexivity|].
  unfold lift.
  destruct (determine_period payment tenant) as [e|period]; [reflexivity|].
  unfold invoice_and_send.
  destruct (create_and_send_invoice env tenant _ _ _) as [msg|inv];
    [reflexivity|].
  simpl.
  pose proof (bump_month_state env (next_due_month tenant) w) as H3.
  destruct (bump_month env (next_due_month tenant) w) as [[e|due] w3];
    simpl in H3; subst w3; [reflexivity|].
  intros Hout. exfalso.
  unfold create_payment, update_tenant_after_payment, mark_payment_emailed,
    bind, call, get, modify, ret in Hout.
  destruct (raises env (DbCreatePayment _)); simpl in Hout;
    [destruct Hout as [[r H]|[r H]]; discriminate|].
  destruct (raises env (DbUpdateTenant _)); simpl in Hout;
    [destruct Hout as [[r H]|[r H]]; discriminate|].
  destruct (raises env (DbMarkEmailed _)); simpl in Hout;
    destruct Hout as [[r H]|[r H]]; discriminate.
Qed.

(** X23. Whatever the outcome, processing a payment removes no payment
    row and adds at most one, which carries the identifier of the
    message; it adds or removes no tenant row, and does not touch the
    mailbox. *)
Theorem processing_adds_at_most_one_row :
  forall (payment : ParsedInteracEmail) (w : World),
    let w' := snd (process_single_payment env payment w) in
    (map pay_email_id (payments (db w'))
     = map pay_email_id (payments (db w))
     \/ map pay_email_id (payments (db w'))
        = (map pay_email_id (payments (db w))
           ++ [Some (email_id payment)])%list)
    /\ List.length (tenants (db w')) = List.length (tenants (db w))
    /\ inbox w' = inbox w.
Proof.
  intros payment w w'. subst w'.
  split; [|split; [|apply process_single_payment_inbox]].
  - unfold process_single_payment, bind.
    pose proof (check_duplicate_payment_reads env (email_id payment) w)
      as H1.
    destruct (check_duplicate_payment env (email_id payment) w)
      as [[e|dup] w1]; simpl in H1; subst w1; [left; reflexivity|].
    destruct dup; [left; reflexivity|].
    pose proof (get_tenant_by_name_reads env (sender_name payment) w) as H2.
    destruct (get_tenant_by_name env (sender_name payment) w)
      as [[e|found] w2]; simpl in H2; subst w2; [left; reflexivity|].
    destruct found as [tenant|]; [|left; reflexivity].
    destruct (amount_mismatch (amount payment) tenant); [left; reflexivity|].
    unfold lift.
    destruct (determine_period payment tenant) as [e|period];
      [left; reflexivity|].
    unfold invoice_and_send.
    destruct (create_and_send_invoice env tenant _ _ _) as [msg|inv];
      [left; reflexivity|].
    simpl.
    pose proof (bump_month_state env (next_due_month tenant) w) as H3.
    destruct (bump_month env (next_due_month tenant) w) as [[e|due] w3];
      simpl in H3; subst w3; [left; reflexivity|].
    unfold create_payment, update_tenant_after_payment,
      mark_payment_emailed, bind, call, get, modify, ret.
    destruct (raises env (DbCreatePayment _)); simpl; [left; reflexivity|].
    destruct (raises env (DbUpdateTenant _)); simpl;
      [right; rewrite map_app; reflexivity|].
    destruct (raises env (DbMarkEmailed _)); simpl;
      right; rewrite ?set_emailed_keeps_emails, map_app; reflexivity.
  - unfold process_single_payment, bind.
    pose proof (check_duplicate_payment_reads env (email_id payment) w)
      as H1.
    destruct (check_duplicate_payment env (email_id payment) w)
      as [[e|dup] w1]; simpl in H1; subst w1; [reflexivity|].
    destruct dup; [reflexivity|].
    pose proof (get_tenant_by_name_reads env (sender_name payment) w) as H2.
    destruct (get_tenant_by_name env (sender_name payment) w)
      as [[e|found] w2]; simpl in H2; subst w2; [reflexivity|].
    destruct found as [tenant|]; [|reflexivity].
    destruct (amount_mismatch (amount payment) tenant); [reflexivity|].
    unfold lift.
    destruct (determine_period payment tenant) as [e|period]; [reflexivity|].
    unfold invoice_and_send.
    destruct (create_and_send_invoice env tenant _ _ _) as [msg|inv];
      [reflexivity|].
    simpl.
    pose proof (bump_month_state env (next_due_month tenant) w) as H3.
    destruct (bump_month env (next_due_month tenant) w) as [[e|due] w3];
      simpl in H3; subst w3; [reflexivity|].
    unfold create_payment, update_tenant_after_payment,
      mark_payment_emailed, bind, call, get, modify, ret.
    destruct (raises env (DbCreatePayment _)); simpl; [reflexivity|].
    destruct (raises env (DbUpdateTenant _)); simpl; [reflexivity|].
    destruct (raises env (DbMarkEmailed _)); simpl;
      rewrite length_map; reflexivity.
Qed.

End Writes.

(** ** The properties at the scenarios *)

Section Instances.

Import Text Regex Dates Eff Supabase Gmail Processor Parser Mime Ninja.
Import Shape Scenario Cases.

Lemma bump_month_rolls_over_witness :
  bump_month env_ok (Some (year_month 2024 12)) world
  = (inr (year_month 2025 1), world).
Proof.
  apply (bump_month_rolls_over World env_ok world 2024 12); lia.
Defined.

Lemma bump_month_falls_back_on_today_witness :
  bump_month env_ok (Some "next month") world
  = (inr (year_month 2024 12), world).
Proof.
  apply (bump_month_falls_back_on_today World env_ok world
           (Some "next month") 2024 11).
  - right. right. left. exists "next month".
    split; [reflexivity | split; vm_compute; reflexivity].
  - reflexivity.
  - reflexivity.
  - lia.
  - lia.
  - lia.
Defined.

Lemma determine_period_not_empty_witness :
  (exists period,
     determine_period (payment_saying (Some "rent"))
       (john_due (Some "2024-11")) = inr period
     /\ period <> "")
  /\ determine_period (payment_saying (Some "rent"))
       (john_due (Some "2147483648-01"))
     = inl (OtherException "signed integer is greater than maximum").
Proof.
  split.
  - destruct (determine_period_not_empty (payment_saying (Some "rent"))
                (john_due (Some "2024-11")))
      as [H|[s [msg [_ [_ [_ H]]]]]].
    + intros message Hm. inversion Hm. reflexivity.
    + intros s Hs. inversion Hs. reflexivity.
    + exact H.
    + vm_compute in H. discriminate.
  - destruct (determine_period_not_empty (payment_saying (Some "rent"))
                (john_due (Some "2147483648-01")))
      as [[period [H _]]|[s [msg [_ [Hs [Hread H]]]]]].
    + intros message Hm. inversion Hm. reflexivity.
    + intros s Hs. inversion Hs. reflexivity.
    + vm_compute in H. discriminate.
    + inversion Hs; subst s. vm_compute in Hread. inversion Hread; subst msg.
      exact H.
Defined.

Lemma success_records_and_advances_witness :
  exists row,
    payments (db (snd (process_single_payment env_ok payment world)))
    = (map (set_emailed (pay_id row)) (payments (db world)) ++ [row])%list
    /\ pay_email_id row = Some "msg-1"
    /\ pay_tenant_id row = "tenant-1"
    /\ pay_amount row = Float.of_decimal "1350.00"
    /\ pay_email_sent row = true.
Proof.
  destruct (success_records_and_advances env_ok payment john invoice
              "2024-12" world) as [_ [Hrow _]].
  - vm_compute; reflexivity.
  - vm_compute; reflexivity.
  - vm_compute; reflexivity.
  - intros period _. reflexivity.
  - vm_compute; reflexivity.
  - reflexivity.
  - reflexivity.
  - intros n; reflexivity.
  - exact Hrow.
Defined.

Lemma success_then_duplicate_witness :
  process_single_payment env_no_invoicing payment
    (snd (process_single_payment env_ok payment world))
  = (inr (skipped_result "duplicate" "msg-1"),
     snd (process_single_payment env_ok payment world)).
Proof.
  apply (success_then_duplicate env_ok payment john invoice "2024-12"
           world env_no_invoicing).
  - vm_compute; reflexivity.
  - vm_compute; reflexivity.
  - vm_compute; reflexivity.
  - intros period _. reflexivity.
  - vm_compute; reflexivity.
  - reflexivity.
  - reflexivity.
  - intros n; reflexivity.
  - reflexivity.
Defined.

Lemma ledger_failure_keeps_payment_row_witness :
  outcome_of (fst (process_single_payment env_no_update payment world))
  = Fatal "connection reset"
  /\ tenants (db (snd (process_single_payment env_no_update payment world)))
     = [john]
  /\ process_single_payment env_ok payment
       (snd (process_single_payment env_no_update payment world))
     = (inr (skipped_result "duplicate" "msg-1"),
        snd (process_single_payment env_no_update payment world)).
Proof.
  destruct (ledger_failure_keeps_payment_row env_no_update payment john
              invoice "2024-12" "connection reset" world env_ok)
    as [Hout [_ [Hten [_ Hagain]]]].
  - vm_compute; reflexivity.
  - vm_compute; reflexivity.
  - vm_compute; reflexivity.
  - intros period _. reflexivity.
  - vm_compute; reflexivity.
  - reflexivity.
  - reflexivity.
  - reflexivity.
  - split; [exact Hout | split; [exact Hten | exact Hagain]].
Defined.

Lemma failed_fetch_gives_empty_batch_witness :
  exists text,
    process_new_payments env_no_search world
    = (mkResults [] [fetch_error ("Failed to fetch payments: " ++ text)]
         [], world).
Proof.
  apply (failed_fetch_gives_empty_batch env_no_search world).
  left. discriminate.
Defined.

Lemma unparsed_messages_block_the_poll_witness :
  In (notice 1) (inbox (snd (process_new_payments env_ok mixed)))
  /\ consumed_in (snd (process_new_payments env_ok mixed)) "msg-1"
  /\ In (message "msg-1" subject) (inbox crowded)
  /\ processed (fst (process_new_payments env_ok crowded)) = []
  /\ snd (process_new_payments env_ok crowded) = crowded.
Proof.
  split; [|split].
  - destruct (unparsed_messages_block_the_poll env_ok mixed) as [Hstay _].
    + vm_compute.
      repeat (constructor; [simpl; intuition discriminate|]).
      constructor.
    + apply Hstay; [left; reflexivity | vm_compute; reflexivity].
  - intros m Hin Hid. vm_compute in Hin.
    destruct Hin as [Hm|[Hm|[]]]; subst m;
      [vm_compute in Hid; discriminate | vm_compute; reflexivity].
  - destruct (unparsed_messages_block_the_poll env_ok crowded)
      as [_ Hblock].
    + vm_compute.
      repeat (constructor; [simpl; intuition discriminate|]).
      constructor.
    + destruct Hblock as [Hnone [Hsame _]].
      * intros m Hin. vm_compute in Hin.
        repeat (destruct Hin as [Hin|Hin];
                [subst m; vm_compute; reflexivity|]).
        destruct Hin.
      * split; [|split; [exact Hnone | exact Hsame]].
        vm_compute. do 20 right. left. reflexivity.
Defined.

Lemma labelled_message_is_not_listed_witness :
  mark_as_processed env_ok "msg-1" world = (inr tt, labelled "msg-1" world)
  /\ ~ In "msg-1" (map msg_id (listed env_ok (labelled "msg-1" world))).
Proof.
  apply (labelled_message_is_not_listed env_ok "msg-1" world env_ok).
  reflexivity.
Defined.

Lemma batch_accounts_for_every_payment_witness :
  exists ps w1,
    fetch_new_payments env_ok world = (inr ps, w1)
    /\ (List.length (processed (fst (process_new_payments env_ok world)))
        + List.length (errors (fst (process_new_payments env_ok world)))
        = List.length ps)%nat.
Proof.
  eexists. eexists. split.
  - vm_compute. reflexivity.
  - eapply (batch_accounts_for_every_payment env_ok world).
    + intros id; reflexivity.
    + vm_compute. reflexivity.
Defined.


Lemma lookup_of_plain_name_witness :
  exists found,
    get_tenant_by_name env_ok "john doe" world = (inr found, world)
    /\ (forall t, found = Some t ->
          In t (tenants (db world))
          /\ map_str lower "john doe" = map_str lower (tenant_name t))
    /\ (found = None <->
        forall t, In t (tenants (db world)) ->
                  map_str lower "john doe"
                  <> map_str lower (tenant_name t)).
Proof.
  apply (lookup_of_plain_name env_ok "john doe" world).
  - vm_compute; reflexivity.
  - vm_compute; reflexivity.
  - intros t [Ht|[]]. subst t. vm_compute; reflexivity.
  - reflexivity.
Defined.

Lemma create_payment_then_check_duplicate_witness :
  fst (check_duplicate_payment env_ok "msg-1"
         (snd (create_payment env_ok "tenant-1"
                 (Float.of_decimal "1350.00") (mkDate 2024 11 1)
                 "November" "msg-1" None "" world)))
  = inr true
  <-> "msg-1" = "msg-1"
      \/ fst (check_duplicate_payment env_ok "msg-1" world) = inr true.
Proof.
  apply (create_payment_then_check_duplicate env_ok env_ok "tenant-1"
           (Float.of_decimal "1350.00") (mkDate 2024 11 1) "November"
           "msg-1" None "" "msg-1" world).
  - reflexivity.
  - reflexivity.
Defined.

Lemma update_tenant_then_get_by_id_witness :
  exists t',
    fst (Admin.get_tenant_by_id None "tenant-1"
           (snd (update_tenant_after_payment env_ok "tenant-1" 6
                   "2024-12" (Some "client-1") world)))
    = inr (Some t')
    /\ last_invoice_no t' = Some 6
    /\ next_due_month t' = Some "2024-12"
    /\ tenant_name t' = "John Doe"
    /\ invoice_ninja_client_id t' = Some "client-1".
Proof.
  destruct (update_tenant_then_get_by_id env_ok "tenant-1" 6 "2024-12"
              (Some "client-1") world) as [Hrow _].
  - reflexivity.
  - destruct (Hrow john) as [t' [H1 [H2 [H3 [H4 [_ [_ H5]]]]]]].
    + vm_compute; reflexivity.
    + exists t'. repeat split; assumption.
Defined.

Lemma new_tenant_period_is_readable_witness :
  first_of_month (Admin.new_next_due received) = inr (mkDate 2024 11 1)
  /\ determine_period (payment_saying None)
       (john_due (Some (Admin.new_next_due received)))
     = inr "November 2024".
Proof.
  destruct (new_tenant_period_is_readable received (payment_saying None)
              (john_due (Some (Admin.new_next_due received))))
    as [Hfirst Hperiod].
  - simpl; lia.
  - simpl; lia.
  - split; [exact Hfirst|].
    apply Hperiod; reflexivity.
Defined.

Lemma html_part_is_preferred_witness :
  extract_body as_is alternative = Some "html".
Proof.
  apply (html_part_is_preferred as_is "multipart/alternative" (Some None)
           [leaf "text/plain" "plain"; leaf "text/html" "html"]).
  constructor; [|constructor; [|constructor]].
  - split; [left; reflexivity|].
    exists "plain". split; reflexivity.
  - split; [right; reflexivity|].
    exists "html". split; reflexivity.
Defined.

Lemma nested_part_discards_what_came_before_witness :
  extract_body as_is
    (mkPayload "multipart/mixed" (Some None)
       (Some [leaf "text/plain" "plain"; hollow]))
  = Some "".
Proof.
  apply (nested_part_discards_what_came_before as_is "multipart/mixed"
           (Some None) [leaf "text/plain" "plain"] hollow [] "").
  - constructor; [|constructor].
    split; [reflexivity | discriminate].
  - discriminate.
  - discriminate.
  - discriminate.
  - reflexivity.
Defined.

Lemma contact_names_rejoin_witness :
  exists first,
    first_name "  John   van Doe " = Some first
    /\ first ++ " " ++ last_name "  John   van Doe " = "John van Doe".
Proof.
  destruct (contact_names_rejoin "  John   van Doe ") as [Hwords _].
  destruct Hwords as [first [Hfirst [Hjoin _]]].
  - vm_compute. discriminate.
  - exists first. split; [exact Hfirst | exact Hjoin].
Defined.

Lemma line_items_add_up_witness :
  total (line_items john "November") = expected_amount john.
Proof.
  destruct (line_items_add_up john "November") as [_ Hsum].
  apply Hsum; vm_compute; reflexivity.
Defined.


Lemma skipped_or_invalid_writes_nothing_witness :
  snd (process_single_payment env_ok stranger world) = world.
Proof.
  apply (skipped_or_invalid_writes_nothing env_ok stranger world).
  right. exists "Tenant not found in database: Jane Roe".
  vm_compute. reflexivity.
Defined.

End Instances.
